(** * FAQ synthesis pipeline of [AssignmentFAQGenerator] (FaqGenerator_v2.py)

    A shallow embedding of the text normaliser, the concept extractor, the
    four question generators, the deduplicator, [process_document] and
    [get_statistics], together with the properties of the specification
    that concern them.

    Python [str] values are sequences of Unicode code points; they are
    modelled as lists of [N].  The ASCII part of every character table is
    written out; the tables for code points from 128 on, the NLTK
    collaborators, the file readers and the readability score are fields of
    an environment record [Env]. *)

From Stdlib Require Import String Ascii.
From Stdlib Require Import List Bool Arith ZArith NArith Lia Sorted.
Import ListNotations.

(** ** Strings *)

Definition pystr := list N.

(** An ASCII literal of the source as a code point sequence. *)
Definition lit (s : String.string) : pystr :=
  map Ascii.N_of_ascii (String.list_ascii_of_string s).

Fixpoint str_eqb (a b : pystr) : bool :=
  match a, b with
  | [], [] => true
  | x :: a', y :: b' => N.eqb x y && str_eqb a' b'
  | _, _ => false
  end.

Fixpoint take_while (p : N -> bool) (s : pystr) : pystr :=
  match s with
  | [] => []
  | c :: s' => if p c then c :: take_while p s' else []
  end.

Fixpoint drop_while (p : N -> bool) (s : pystr) : pystr :=
  match s with
  | [] => []
  | c :: s' => if p c then drop_while p s' else s
  end.

(** [a.startswith(b)] read the other way round: [b] is a prefix of [a]. *)
Fixpoint prefixb (pre s : pystr) : bool :=
  match pre, s with
  | [], _ => true
  | x :: pre', y :: s' => N.eqb x y && prefixb pre' s'
  | _ :: _, [] => false
  end.

(** [s.endswith(suf)]. *)
Definition endswith (s suf : pystr) : bool := prefixb (rev suf) (rev s).

(** [needle in hay] on strings: substring test. *)
Fixpoint str_in (needle hay : pystr) : bool :=
  prefixb needle hay ||
  match hay with
  | [] => false
  | _ :: hay' => str_in needle hay'
  end.

(** [any(ind in s for ind in indicators)]. *)
Definition any_in (indicators : list pystr) (s : pystr) : bool :=
  existsb (fun ind => str_in ind s) indicators.

(** ** Character tables *)

Local Open Scope N_scope.

Definition in_range (lo hi c : N) : bool := (lo <=? c) && (c <=? hi).

(** [Py_UNICODE_ISSPACE], used both by [\s] and by [str.strip()]. *)
Definition is_space (c : N) : bool :=
  in_range 0x09 0x0D c || in_range 0x1C 0x20 c ||
  (c =? 0x85) || (c =? 0xA0) || (c =? 0x1680) ||
  in_range 0x2000 0x200A c || (c =? 0x2028) || (c =? 0x2029) ||
  (c =? 0x202F) || (c =? 0x205F) || (c =? 0x3000).

Definition ascii_digit (c : N) : bool := in_range 48 57 c.
Definition ascii_upper (c : N) : bool := in_range 65 90 c.
Definition ascii_lower (c : N) : bool := in_range 97 122 c.
Definition ascii_alpha (c : N) : bool := ascii_upper c || ascii_lower c.

Definition to_lower_ascii (c : N) : N := if ascii_upper c then c + 32 else c.

Local Close Scope N_scope.

(** ** FAQ pairs and session state *)

Record FAQPair := mkPair { question : pystr; answer : pystr }.

Record State := mkState {
  raw_text : pystr;
  sentences : list pystr;
  key_concepts : list pystr;
  faq_pairs : list FAQPair
}.

(** Values stored in the statistics dictionary. *)
Inductive pyval (F : Type) : Type :=
| PInt (n : Z)
| PFloat (x : F)
| PStr (s : pystr)
| PStrList (l : list pystr).

Arguments PInt {F} n.
Arguments PFloat {F} x.
Arguments PStr {F} s.
Arguments PStrList {F} l.

(** ** External collaborators *)

Record Env := mkEnv {
  (** Unicode tables for code points from 128 on. *)
  uni_alnum : N -> bool;            (* Py_UNICODE_ISALNUM *)
  uni_decimal : N -> bool;          (* Py_UNICODE_ISDECIMAL, the class \d *)
  uni_alpha : N -> bool;            (* Py_UNICODE_ISALPHA *)
  (** Lower-casing of a non-ASCII code point between the text before it and
      the text after it (the final-sigma rule reads both). *)
  uni_lower : pystr -> N -> pystr -> pystr;
  (** NLTK. *)
  sent_tokenize : pystr -> list pystr;
  word_tokenize : pystr -> list pystr;
  pos_tag : list pystr -> list (pystr * pystr);
  stop_words : list pystr;
  (** PyPDF2: the text of each page, [None] overall when opening or
      reading raises, [None] for a page without detectable text. *)
  pdf_pages : pystr -> option (list (option pystr));
  (** [open(path).read()], [None] when it raises. *)
  read_file : pystr -> option pystr;
  (** textstat and float division. *)
  pyfloat : Type;
  flesch_reading_ease : pystr -> option pyfloat;
  truediv : Z -> Z -> pyfloat
}.

Section Pipeline.

Variable E : Env.

Local Open Scope N_scope.

(** [\d] on a [str] pattern. *)
Definition is_digit (c : N) : bool :=
  if c <? 128 then ascii_digit c else uni_decimal E c.

(** [\w] on a [str] pattern: alphanumeric or underscore. *)
Definition is_word (c : N) : bool :=
  if c <? 128 then ascii_alpha c || ascii_digit c || (c =? 95)
  else uni_alnum E c.

Definition is_alpha (c : N) : bool :=
  if c <? 128 then ascii_alpha c else uni_alpha E c.

(** [str.isalpha()]: non-empty and every character alphabetic. *)
Definition isalpha (s : pystr) : bool :=
  match s with
  | [] => false
  | _ => forallb is_alpha s
  end.

(** [str.lower()]. *)
Fixpoint lower_from (before s : pystr) : pystr :=
  match s with
  | [] => []
  | c :: s' =>
    (if c <? 128 then [to_lower_ascii c] else uni_lower E before c s')
      ++ lower_from (before ++ [c]) s'
  end.

Definition lower (s : pystr) : pystr := lower_from [] s.

(** [str.strip()]. *)
Definition strip (s : pystr) : pystr :=
  rev (drop_while is_space (rev (drop_while is_space s))).

(** [len(s.split())]: the words of [s] between runs of whitespace. *)
Fixpoint split_from (cur : pystr) (s : pystr) : list pystr :=
  match s with
  | [] => match cur with [] => [] | _ => [rev cur] end
  | c :: s' =>
    if is_space c
    then match cur with [] => split_from [] s' | _ => rev cur :: split_from [] s' end
    else split_from (c :: cur) s'
  end.

Definition split (s : pystr) : list pystr := split_from [] s.

(** ** Regular-expression substitution

    [re.sub(pattern, repl, text)] scans [text] from the left; where the
    pattern matches it writes [repl] and continues behind the match, where
    it does not it copies one character.  A matcher gives the length of the
    match that starts at the head of its argument.  None of the six
    patterns of [preprocess_text] matches the empty string. *)

Fixpoint re_sub_from (m : pystr -> option nat) (repl : pystr)
         (skip : nat) (s : pystr) : pystr :=
  match s with
  | [] => []
  | c :: s' =>
    match skip with
    | S k => re_sub_from m repl k s'
    | O =>
      match m s with
      | Some (S k) => repl ++ re_sub_from m repl k s'
      | _ => c :: re_sub_from m repl 0 s'
      end
    end
  end.

Definition re_sub (m : pystr -> option nat) (repl s : pystr) : pystr :=
  re_sub_from m repl 0 s.

(** A literal pattern. *)
Definition m_literal (l s : pystr) : option nat :=
  if prefixb l s then Some (length l) else None.

(** [C+] for a character class [C]: the longest run, at least one. *)
Definition m_plus (p : N -> bool) (s : pystr) : option nat :=
  match length (take_while p s) with
  | O => None
  | n => Some n
  end.

(** The characters the fourth substitution keeps besides [\w] and [\s]:
    . , ! ? ; : ( ) - and the two quote characters. *)
Definition kept_punct (c : N) : bool :=
  existsb (N.eqb c) (lit ".,!?;:()-"%string ++ [39; 34]).

Definition stripped_char (c : N) : bool :=
  negb (is_word c || is_space c || kept_punct c).

(** A literal letter under [re.IGNORECASE]. *)
Definition ci (letter c : N) : bool := to_lower_ascii letter =? to_lower_ascii c.

(** [Page \d+] with [re.IGNORECASE]. *)
Definition m_page (s : pystr) : option nat :=
  match s with
  | p :: a :: g :: e :: sp :: rest =>
    if ci 80 p && ci 97 a && ci 103 g && ci 101 e && (sp =? 32)
    then match length (take_while is_digit rest) with
         | O => None
         | k => Some (5 + k)%nat
         end
    else None
  | _ => None
  end.

(** [\d+/\d+]. *)
Definition m_fraction (s : pystr) : option nat :=
  match length (take_while is_digit s) with
  | O => None
  | k =>
    match drop_while is_digit s with
    | 47 :: rest =>
      match length (take_while is_digit rest) with
      | O => None
      | j => Some (k + 1 + j)%nat
      end
    | _ => None
    end
  end.

Definition preprocess_text (text : pystr) : pystr :=
  let text := re_sub (m_literal [13; 10]) [10] text in
  let text := re_sub (m_plus is_space) [32] text in
  let text := re_sub (m_plus (N.eqb 10)) [10] text in
  let text := re_sub (m_plus stripped_char) [] text in
  let text := re_sub m_page [] text in
  let text := re_sub m_fraction [] text in
  strip text.

Local Close Scope N_scope.

(** ** Concept extractor *)

(** [pos.startswith(('NN', 'JJ', 'VB'))]. *)
Definition concept_tag (pos : pystr) : bool :=
  existsb (fun pre => prefixb pre pos) [lit "NN"; lit "JJ"; lit "VB"].

Definition in_set (w : pystr) (set : list pystr) : bool := existsb (str_eqb w) set.

Definition important_token (wp : pystr * pystr) : bool :=
  concept_tag (snd wp) && negb (in_set (fst wp) (stop_words E)) &&
  (2 <? length (fst wp)) && isalpha (fst wp).

(** [Counter]: a dictionary from word to count, in insertion order. *)
Fixpoint counter_add (w : pystr) (cnt : list (pystr * nat)) : list (pystr * nat) :=
  match cnt with
  | [] => [(w, 1)]
  | (k, n) :: cnt' =>
    if str_eqb k w then (k, S n) :: cnt' else (k, n) :: counter_add w cnt'
  end.

Definition Counter (l : list pystr) : list (pystr * nat) :=
  fold_left (fun cnt w => counter_add w cnt) l [].

(** [sorted(items, key=itemgetter(1), reverse=True)]: a stable sort, so an
    item goes in front of the items that follow it and do not count more. *)
Fixpoint insert_desc (x : pystr * nat) (l : list (pystr * nat)) : list (pystr * nat) :=
  match l with
  | [] => [x]
  | y :: l' => if snd y <=? snd x then x :: l else y :: insert_desc x l'
  end.

Definition sorted_desc (l : list (pystr * nat)) : list (pystr * nat) :=
  fold_right insert_desc [] l.

(** [Counter.most_common(n)] is [heapq.nlargest(n, items, key=count)], that
    is [sorted(items, key=count, reverse=True)[:n]], empty for [n <= 0]. *)
Definition most_common (n : Z) (cnt : list (pystr * nat)) : list (pystr * nat) :=
  firstn (Z.to_nat n) (sorted_desc cnt).

Definition important_words (text : pystr) : list pystr :=
  map fst (filter important_token (pos_tag E (word_tokenize E (lower text)))).

Definition extract_key_concepts (text : pystr) (top_n : Z) : list pystr :=
  map fst (most_common top_n (Counter (important_words text))).

(** ** Question generators *)

Definition definition_indicators : list pystr :=
  [lit "is"; lit "are"; lit "defined as"; lit "refers to"; lit "means";
   lit "definition"; lit "is called"; lit "is known as"].

(** The test of the inner loop of [generate_definition_questions]. *)
Definition defines (concept sent : pystr) : bool :=
  str_in (lower concept) (lower sent) && any_in definition_indicators (lower sent).

(** [max(l, key=len)] on a non-empty list: the first element of greatest
    length. *)
Fixpoint max_by_len (best : pystr) (l : list pystr) : pystr :=
  match l with
  | [] => best
  | x :: l' => max_by_len (if length best <? length x then x else best) l'
  end.

Definition definition_sentences (concept : pystr) (sents : list pystr) : list pystr :=
  fold_left (fun found sent =>
               if defines concept sent then found ++ [strip sent] else found)
            sents [].

Definition definition_for (sents : list pystr) (concept : pystr) : list FAQPair :=
  let q := lit "What is " ++ concept ++ lit "?" in
  match definition_sentences concept sents with
  | [] => []
  | d :: ds => [mkPair q (max_by_len d ds)]
  end.

Definition generate_definition_questions (concepts : list pystr) (text : pystr)
  : list FAQPair :=
  let sents := sent_tokenize E text in
  fold_left (fun questions concept => questions ++ definition_for sents concept)
            concepts [].

Definition process_indicators : list pystr :=
  [lit "first"; lit "then"; lit "next"; lit "finally"; lit "step"; lit "process";
   lit "method"; lit "procedure"; lit "how to"; lit "in order to"; lit "steps"].

Definition how_for (sentence : pystr) : list FAQPair :=
  let pos_tags := pos_tag E (word_tokenize E (lower sentence)) in
  let main_verbs := map fst (filter (fun wp => prefixb (lit "VB") (snd wp)) pos_tags) in
  match main_verbs with
  | [] => []
  | main_verb :: _ =>
    [mkPair (lit "How do you " ++ main_verb ++ lit " in this context?") (strip sentence)]
  end.

Definition generate_how_questions (text : pystr) : list FAQPair :=
  let sents := sent_tokenize E text in
  let process_sentences := filter (fun s => any_in process_indicators (lower s)) sents in
  fold_left (fun questions sentence => questions ++ how_for sentence)
            (firstn 5 process_sentences) [].

Definition reason_indicators : list pystr :=
  [lit "because"; lit "due to"; lit "since"; lit "as a result"; lit "therefore";
   lit "consequently"; lit "reason"; lit "cause"; lit "leads to"; lit "results in"].

Definition why_question : pystr :=
  lit "Why is this concept important in the assignment?".

Definition gives_reason (sent : pystr) : bool :=
  any_in reason_indicators (lower sent).

Definition generate_why_questions (text : pystr) : list FAQPair :=
  let sents := sent_tokenize E text in
  let questions :=
    fold_left (fun questions sent =>
                 if gives_reason sent
                 then questions ++ [mkPair why_question (strip sent)]
                 else questions)
              sents [] in
  firstn 3 questions.

Definition comparison_words : list pystr :=
  [lit "versus"; lit "vs"; lit "compared to"; lit "difference between";
   lit "similar to"; lit "unlike"; lit "whereas"; lit "however"; lit "but"].

Definition names_both (c1 c2 s : pystr) : bool :=
  str_in (lower c1) (lower s) && str_in (lower c2) (lower s).

Definition comparison_question (c1 c2 : pystr) : pystr :=
  lit "What is the difference between " ++ c1 ++ lit " and " ++ c2 ++ lit "?".

Definition comparison_fallback (c1 c2 : pystr) : pystr :=
  lit "Both " ++ c1 ++ lit " and " ++ c2 ++
  lit " are important concepts in this assignment that serve different roles in the overall context.".

(** The body of the loop of [generate_comparison_questions] at index [i];
    [concepts[i]] and [concepts[i+1]] are read with a default that the
    bound of the loop keeps out of reach. *)
Definition comparison_at (comparison_sentences concepts : list pystr) (i : nat) : FAQPair :=
  let c1 := nth i concepts [] in
  let c2 := nth (i + 1) concepts [] in
  let relevant := filter (names_both c1 c2) comparison_sentences in
  let a := match relevant with
           | r :: _ => strip r
           | [] => comparison_fallback c1 c2
           end in
  mkPair (comparison_question c1 c2) a.

(** [range(min(len(concepts)-1, 3))], empty when the bound is not positive. *)
Definition comparison_range (concepts : list pystr) : list nat :=
  seq 0 (Z.to_nat (Z.min (Z.of_nat (length concepts) - 1) 3)).

Definition generate_comparison_questions (text : pystr) (concepts : list pystr)
  : list FAQPair :=
  let sents := sent_tokenize E text in
  let comparison_sentences := filter (fun s => any_in comparison_words (lower s)) sents in
  fold_left (fun questions i =>
               questions ++ [comparison_at comparison_sentences concepts i])
            (comparison_range concepts) [].

(** ** Deduplicator *)

Definition question_key (p : FAQPair) : pystr := strip (lower (question p)).

Fixpoint dedup_loop (unique : list FAQPair) (seen : list pystr)
         (faqs : list FAQPair) : list FAQPair :=
  match faqs with
  | [] => unique
  | p :: faqs' =>
    let key := question_key p in
    if in_set key seen
    then dedup_loop unique seen faqs'
    else dedup_loop (unique ++ [p]) (key :: seen) faqs'
  end.

Definition remove_duplicate_questions (faqs : list FAQPair) : list FAQPair :=
  dedup_loop [] [] faqs.

(** ** Text acquisition *)

Definition extract_from_pdf (pdf_path : pystr) : pystr :=
  match pdf_pages E pdf_path with
  | None => []
  | Some pages =>
    fold_left (fun text page =>
                 match page with
                 | Some (c :: page_text) => text ++ (c :: page_text) ++ [10%N]
                 | _ => text
                 end)
              pages []
  end.

Definition extract_from_txt (txt_path : pystr) : pystr :=
  match read_file E txt_path with
  | Some text => text
  | None => []
  end.

(** The raw text [process_document] stores for an input. *)
Definition acquire (input_str : pystr) : pystr :=
  let input_lower := strip (lower input_str) in
  if endswith input_lower (lit ".pdf") then extract_from_pdf input_str
  else if endswith input_lower (lit ".txt") then extract_from_txt input_str
  else input_str.

(** ** The session *)

Definition set_raw_text (v : pystr) (s : State) : State :=
  mkState v (sentences s) (key_concepts s) (faq_pairs s).
Definition set_sentences (v : list pystr) (s : State) : State :=
  mkState (raw_text s) v (key_concepts s) (faq_pairs s).
Definition set_key_concepts (v : list pystr) (s : State) : State :=
  mkState (raw_text s) (sentences s) v (faq_pairs s).
Definition set_faq_pairs (v : list FAQPair) (s : State) : State :=
  mkState (raw_text s) (sentences s) (key_concepts s) v.

(** [__init__]. *)
Definition init_state : State := mkState [] [] [] [].

Definition process_document (self : State) (input_str : pystr) : State * bool :=
  let self := set_raw_text [] self in
  let self := set_sentences [] self in
  let self := set_key_concepts [] self in
  let self := set_faq_pairs [] self in
  let self := set_raw_text (acquire input_str) self in
  match raw_text self with
  | [] => (self, false)
  | _ =>
    let processed := preprocess_text (raw_text self) in
    let self := set_sentences (sent_tokenize E processed) self in
    let self := set_key_concepts (extract_key_concepts processed 15) self in
    let definition_qs := generate_definition_questions (key_concepts self) processed in
    let how_qs := generate_how_questions processed in
    let why_qs := generate_why_questions processed in
    let comparison_qs := generate_comparison_questions processed (key_concepts self) in
    let self := set_faq_pairs (definition_qs ++ how_qs ++ why_qs ++ comparison_qs) self in
    let self := set_faq_pairs (remove_duplicate_questions (faq_pairs self)) self in
    (self, true)
  end.

Definition get_statistics (self : State) : list (pystr * pyval (pyfloat E)) :=
  match raw_text self with
  | [] => [(lit "error", PStr (lit "No document processed yet."))]
  | _ =>
    let reading :=
      match flesch_reading_ease E (raw_text self) with
      | Some x => PFloat x
      | None => PStr (lit "N/A")
      end in
    let avg_sentence_len :=
      match sentences self with
      | [] => PInt 0
      | _ => PFloat (truediv E (Z.of_nat (length (split (raw_text self))))
                             (Z.of_nat (length (sentences self))))
      end in
    [(lit "total_characters", PInt (Z.of_nat (length (raw_text self))));
     (lit "total_sentences", PInt (Z.of_nat (length (sentences self))));
     (lit "total_faqs", PInt (Z.of_nat (length (faq_pairs self))));
     (lit "key_concepts_found", PInt (Z.of_nat (length (key_concepts self))));
     (lit "key_concepts", PStrList (firstn 10 (key_concepts self)));
     (lit "reading_level", reading);
     (lit "avg_sentence_length", avg_sentence_len)]
  end.

End Pipeline.

(** ** A deterministic stand-in for the collaborators

    Sentences end at a full stop, question mark or exclamation mark; words
    are separated by whitespace and punctuation; the tagger knows a few
    verbs and adjectives and calls every other word a noun; there are no
    files and no Unicode beyond ASCII. *)

Module Stub.

Definition sentence_end (c : N) : bool :=
  N.eqb c 46 || N.eqb c 33 || N.eqb c 63.

Fixpoint sents_from (cur s : pystr) : list pystr :=
  match s with
  | [] => match cur with [] => [] | _ => [rev cur] end
  | c :: s' =>
    if sentence_end c then rev (c :: cur) :: sents_from [] s'
    else match cur with
         | [] => if is_space c then sents_from [] s' else sents_from [c] s'
         | _ => sents_from (c :: cur) s'
         end
  end.

Definition sentences_of (s : pystr) : list pystr := sents_from [] s.

Definition words_of (s : pystr) : list pystr :=
  split (map (fun c => if kept_punct c then 32%N else c) s).

Definition verbs : list pystr :=
  [lit "check"; lit "fall"; lit "reduce"; lit "used"; lit "is"; lit "are"].

Definition adjectives : list pystr := [lit "fast"; lit "slow"].

Definition tag_of (w : pystr) : pystr :=
  if existsb (str_eqb w) verbs then lit "VB"
  else if existsb (str_eqb w) adjectives then lit "JJ"
  else lit "NN".

Definition tagger (ws : list pystr) : list (pystr * pystr) :=
  map (fun w => (w, tag_of w)) ws.

Definition stops : list pystr :=
  [lit "a"; lit "an"; lit "the"; lit "is"; lit "are"; lit "and"; lit "to";
   lit "they"; lit "then"; lit "because"; lit "back"].

Definition env : Env :=
  {| uni_alnum := fun _ => false;
     uni_decimal := fun _ => false;
     uni_alpha := fun _ => false;
     uni_lower := fun _ c _ => [c];
     sent_tokenize := sentences_of;
     word_tokenize := words_of;
     pos_tag := tagger;
     stop_words := stops;
     pdf_pages := fun _ => None;
     read_file := fun _ => None;
     pyfloat := Z * Z;
     flesch_reading_ease := fun _ => None;
     truediv := fun a b => (a, b) |}.

Definition cache_text : pystr :=
  lit "A cache is a fast storage layer. Caches are used because they reduce latency. First, check the cache; then, fall back to disk.".

Definition reasons_text : pystr :=
  lit "Caches help because disks are slow. Disks are slow since they spin. Memory is small due to cost. Speed matters, therefore we cache.".

End Stub.

(** ** The guarantees the specification states, as predicates *)

Definition starts_with_space (s : pystr) : bool :=
  match s with
  | c :: _ => is_space c
  | [] => false
  end.

Definition ends_with_space (s : pystr) : bool := starts_with_space (rev s).

(** Two adjacent occurrences of the character [c]. *)
Fixpoint has_run (c : N) (s : pystr) : bool :=
  match s with
  | [] => false
  | x :: s' =>
    (N.eqb x c && match s' with y :: _ => N.eqb y c | [] => false end)
    || has_run c s'
  end.

(** The guarantee of the normaliser as the specification words it. *)
Definition normalizer_guarantee (out : pystr) : Prop :=
  starts_with_space out = false /\ ends_with_space out = false /\
  has_run 32 out = false /\ has_run 10 out = false.

(** Every whitespace character is the plain space U+0020. *)
Definition only_plain_spaces (s : pystr) : Prop :=
  Forall (fun c => is_space c = true -> c = 32%N) s.

(** The pattern of matcher [m] occurs somewhere in [s]. *)
Fixpoint has_match (m : pystr -> option nat) (s : pystr) : bool :=
  match m s with Some _ => true | None => false end ||
  match s with
  | [] => false
  | _ :: s' => has_match m s'
  end.

(** Text on which no step of the normaliser has anything left to do. *)
Definition normalized (E : Env) (u : pystr) : Prop :=
  starts_with_space u = false /\ ends_with_space u = false /\
  only_plain_spaces u /\ has_run 32 u = false /\
  Forall (fun c => stripped_char E c = false) u /\
  has_match (m_page E) u = false.

(** The pair at position [i] has the question key of an earlier pair. *)
Definition duplicates_earlier (E : Env) (faqs : list FAQPair) (i : nat) : bool :=
  existsb (fun q => str_eqb (question_key E q)
                            (question_key E (nth i faqs (mkPair [] []))))
          (firstn i faqs).

(** The positions of the pairs that duplicate no earlier pair, ascending. *)
Definition first_occurrence_indices (E : Env) (faqs : list FAQPair) : list nat :=
  filter (fun i => negb (duplicates_earlier E faqs i)) (seq 0 (length faqs)).

(** How many pairs ask the question [q]. *)
Definition count_question (q : pystr) (faqs : list FAQPair) : nat :=
  length (filter (fun p => str_eqb (question p) q) faqs).

(** The record of [get_statistics] when no document was processed. *)
Definition error_record (E : Env) : list (pystr * pyval (pyfloat E)) :=
  [(lit "error", PStr (lit "No document processed yet."))].


(** The text [preprocess_text] holds before its final [strip()]. *)
Definition before_strip (E : Env) (text : pystr) : pystr :=
  re_sub (m_fraction E) []
    (re_sub (m_page E) []
      (re_sub (m_plus (stripped_char E)) []
        (re_sub (m_plus (N.eqb 10)) [10%N]
          (re_sub (m_plus is_space) [32%N]
            (re_sub (m_literal [13%N; 10%N]) [10%N] text))))).

(** The comparison sentences of [generate_comparison_questions]. *)
Definition comparison_pool (E : Env) (text : pystr) : list pystr :=
  filter (fun s => any_in comparison_words (lower E s)) (sent_tokenize E text).

(** How often [w] occurs in [l], and where first. *)
Definition occurrences (w : pystr) (l : list pystr) : nat :=
  length (filter (str_eqb w) l).

Fixpoint first_index (w : pystr) (l : list pystr) : nat :=
  match l with
  | [] => 0
  | x :: l' => if str_eqb x w then 0 else S (first_index w l')
  end.

(** [a] is ranked before [b] among the words [l]: it is more frequent, or
    as frequent and met earlier. *)
Definition ranks_before (l : list pystr) (a b : pystr) : Prop :=
  occurrences b l < occurrences a l \/
  (occurrences a l = occurrences b l /\ first_index a l < first_index b l).

(** The count a [Counter] holds for [w], 0 for a missing key. *)
Definition count_of (w : pystr) (cnt : list (pystr * nat)) : nat :=
  match find (fun p => str_eqb (fst p) w) cnt with
  | Some p => snd p
  | None => 0
  end.

(** The order a stable sort by descending count yields on items handed to
    it in the order [T]. *)
Definition sorted_rel (T : pystr * nat -> pystr * nat -> Prop)
           (a b : pystr * nat) : Prop :=
  snd b < snd a \/ (snd a = snd b /\ T a b).

(** [str.rstrip()]. *)
Definition rstrip (s : pystr) : pystr := rev (drop_while is_space (rev s)).

(** The normalised text of a call and the pairs its four generators
    produce, in generation order, before deduplication. *)
Definition processed_text (E : Env) (input_str : pystr) : pystr :=
  preprocess_text E (acquire E input_str).

Definition generated_pairs (E : Env) (input_str : pystr) : list FAQPair :=
  let processed := processed_text E input_str in
  let concepts := extract_key_concepts E processed 15 in
  generate_definition_questions E concepts processed
  ++ generate_how_questions E processed
  ++ generate_why_questions E processed
  ++ generate_comparison_questions E processed concepts.

(** The pairs of [faqs] that ask the fixed why question. *)
Definition why_pairs (faqs : list FAQPair) : list FAQPair :=
  filter (fun p => str_eqb (question p) why_question) faqs.

(** Whitespace collapsed by one left-to-right pass: [inrun] says that the
    character before was whitespace. *)
Fixpoint squeeze (inrun : bool) (s : pystr) : pystr :=
  match s with
  | [] => []
  | c :: s' =>
    if is_space c
    then (if inrun then squeeze true s' else 32%N :: squeeze true s')
    else c :: squeeze false s'
  end.

(** The three substitutions of [preprocess_text] that can change its
    result, and the final [strip()]. *)
Definition preprocess_core (E : Env) (text : pystr) : pystr :=
  strip (re_sub (m_page E) []
           (re_sub (m_plus (stripped_char E)) []
              (re_sub (m_plus is_space) [32%N] text))).

(** A character [preprocess_text] lets through. *)
Definition kept_char (E : Env) (c : N) : bool :=
  is_word E c || N.eqb c 32 || kept_punct c.

(** What one page adds to the text of [extract_from_pdf]: its text and a
    newline, nothing when the page gave no text. *)
Definition page_lines (page : option pystr) : pystr :=
  match page with
  | Some (c :: page_text) => (c :: page_text) ++ [10%N]
  | _ => []
  end.

Definition page_has_text (page : option pystr) : bool :=
  match page with
  | Some (_ :: _) => true
  | _ => false
  end.

(** ASCII whitespace: space, tab, line feed, vertical tab, form feed,
    carriage return and the four separators 28 to 31. *)
Definition ascii_space (c : N) : bool := N.ltb c 128 && is_space c.

(** The stand-in collaborators with two files on disk. *)
Module StubFiles.

Definition pdf_of (path : pystr) : option (list (option pystr)) :=
  if str_eqb path (lit "Notes.PDF ")
  then Some [Some (lit "A cache is a fast storage layer."); None; Some [];
             Some (lit "Caches are used because they reduce latency.")]
  else if str_eqb path (lit "scan.pdf") then Some [None; Some []]
  else None.

Definition txt_of (path : pystr) : option pystr :=
  if str_eqb path (lit "notes.txt")
  then Some (lit "First, check the cache; then, fall back to disk.")
  else if str_eqb path (lit "empty.txt") then Some []
  else None.

Definition env : Env :=
  {| uni_alnum := uni_alnum Stub.env;
     uni_decimal := uni_decimal Stub.env;
     uni_alpha := uni_alpha Stub.env;
     uni_lower := uni_lower Stub.env;
     sent_tokenize := sent_tokenize Stub.env;
     word_tokenize := word_tokenize Stub.env;
     pos_tag := pos_tag Stub.env;
     stop_words := stop_words Stub.env;
     pdf_pages := pdf_of;
     read_file := txt_of;
     pyfloat := Z * Z;
     flesch_reading_ease := fun _ => None;
     truediv := fun a b => (a, b) |}.

End StubFiles.

(** The sentences [generate_how_questions] looks at, and the verb it takes
    from one of them: the first token of the lowercased sentence whose tag
    starts with VB. *)
Definition process_sentences (E : Env) (text : pystr) : list pystr :=
  filter (fun s => any_in process_indicators (lower E s)) (sent_tokenize E text).

Definition main_verb (E : Env) (sentence : pystr) : option pystr :=
  hd_error (map fst (filter (fun wp => prefixb (lit "VB") (snd wp))
                            (pos_tag E (word_tokenize E (lower E sentence))))).

Definition how_question (verb : pystr) : pystr :=
  lit "How do you " ++ verb ++ lit " in this context?".

(** The keys of the statistics record of a processed document, in the
    order in which [get_statistics] writes them. *)
Definition statistics_keys : list pystr :=
  [lit "total_characters"; lit "total_sentences"; lit "total_faqs";
   lit "key_concepts_found"; lit "key_concepts"; lit "reading_level";
   lit "avg_sentence_length"].

(** A pair whose answer is a trimmed sentence of [sents], or the
    synthesized comparison of two of the [concepts]. *)
Definition sourced (sents concepts : list pystr) (p : FAQPair) : Prop :=
  question p <> [] /\
  ((exists sent, In sent sents /\ answer p = strip sent) \/
   (exists c1 c2, In c1 concepts /\ In c2 concepts /\
                  question p = comparison_question c1 c2 /\
                  answer p = comparison_fallback c1 c2)).

(** ** Callers

    What [main] writes to the console, line by line.  A line whose text
    Python formats from a value keeps the value: the statistics line of
    [f"{k}: {v}"], the question and answer lines with their number, and the
    line of a read error, whose exception text the file system decides.
    The lines are those of a run with the NLTK data already installed. *)

Inductive console_line (F : Type) : Type :=
| Line (s : pystr)
| Prompt (s : pystr)
| ReadErrorLine (pdf : bool)
| StatLine (k : pystr) (v : pyval F)
| QuestionLine (i : nat) (q : pystr)
| AnswerLine (i : nat) (a : pystr).

Arguments Line {F} s.
Arguments Prompt {F} s.
Arguments ReadErrorLine {F} pdf.
Arguments StatLine {F} k v.
Arguments QuestionLine {F} i q.
Arguments AnswerLine {F} i a.

(** The lines [process_document] prints itself, through [extract_from_pdf]
    and [extract_from_txt] when reading raises, and when no text was
    found. *)
Definition printed_by_process_document (E : Env) (input_str : pystr)
  : list (console_line (pyfloat E)) :=
  let input_lower := strip (lower E input_str) in
  (if endswith input_lower (lit ".pdf")
   then match pdf_pages E input_str with
        | None => [ReadErrorLine true]
        | Some _ => []
        end
   else if endswith input_lower (lit ".txt")
   then match read_file E input_str with
        | None => [ReadErrorLine false]
        | Some _ => []
        end
   else [])
  ++ match acquire E input_str with
     | [] => [Line (lit "[ERROR] No text found or could not extract text.")]
     | _ => []
     end.

Definition main_banner (F : Type) : list (console_line F) :=
  [Line (lit "=== Assignment FAQ Generator (console output only) ===");
   Line (lit "You may either enter a local file path ending with .pdf or .txt, OR paste the assignment text directly.");
   Line (lit "If you choose to paste text, just paste it and press Enter when done (single-line inputs also work).");
   Prompt (10%N :: lit "Enter file path OR paste text here: ")].

(** [for i, pair in enumerate(faq_pairs, start=1)]. *)
Definition enumerate_from_1 (pairs : list FAQPair) : list (nat * FAQPair) :=
  combine (seq 1 (length pairs)) pairs.

Definition faq_lines (F : Type) (pairs : list FAQPair) : list (console_line F) :=
  match pairs with
  | [] => [Line (lit "No FAQ pairs generated.")]
  | _ =>
    flat_map (fun ip => [QuestionLine (fst ip) (question (snd ip));
                         AnswerLine (fst ip) (answer (snd ip));
                         Line (repeat 45%N 40)])
             (enumerate_from_1 pairs)
  end.

(** [main], for the line [typed] that [input()] returns. *)
Definition main (E : Env) (typed : pystr) : list (console_line (pyfloat E)) :=
  let user_input := strip typed in
  let faq_generator := init_state in
  let result := process_document E faq_generator user_input in
  let faq_generator := fst result in
  let success := snd result in
  main_banner (pyfloat E) ++ printed_by_process_document E user_input ++
  if negb success
  then [Line (lit "Processing failed. Please check the input.")]
  else
    [Line (10%N :: lit "--- Document Statistics ---")] ++
    map (fun kv => StatLine (fst kv) (snd kv)) (get_statistics E faq_generator) ++
    [Line (10%N :: lit "--- Generated FAQs ---")] ++
    faq_lines (pyfloat E) (faq_pairs faq_generator).

(** What the Streamlit page shows when "Generate FAQs" is pressed.
    [uploaded] is the path of the temporary file the upload was written
    to, if a file was uploaded; [tmp_exists] is what [os.path.exists]
    answers for it after the call; the environment is the one in which
    [process_document] runs, with that temporary file in place. *)
Inductive widget (F : Type) : Type :=
| StWarning (s : pystr)
| StError (s : pystr)
| StSubheader (s : pystr)
| StQuestion (i : nat) (q : pystr)
| StWrite (s : pystr)
| StJson (record : list (pystr * pyval F)).

Arguments StWarning {F} s.
Arguments StError {F} s.
Arguments StSubheader {F} s.
Arguments StQuestion {F} i q.
Arguments StWrite {F} s.
Arguments StJson {F} record.

Record click_result (F : Type) : Type := mkClick {
  shown : list (widget F);
  removed : option pystr
}.

Arguments mkClick {F} shown removed.
Arguments shown {F} c.
Arguments removed {F} c.

Definition generate_clicked (E : Env) (uploaded : option pystr) (tmp_exists : bool)
           (text_input : pystr) : click_result (pyfloat E) :=
  let to_process :=
    match uploaded with
    | Some tmp_path => tmp_path
    | None => strip text_input
    end in
  match to_process with
  | [] => mkClick [StWarning (lit "Please provide input text or upload a file.")] None
  | _ =>
    let result := process_document E init_state to_process in
    let faq := fst result in
    let success := snd result in
    let removed :=
      match uploaded with
      | Some tmp_path => if tmp_exists then Some tmp_path else None
      | None => None
      end in
    mkClick
      (if negb success
       then [StError (lit "Failed to generate FAQs.")]
       else
         [StSubheader (lit "Generated FAQs")] ++
         flat_map (fun ip => [StQuestion (fst ip) (question (snd ip));
                              StWrite (answer (snd ip));
                              StWrite (lit "---")])
                  (enumerate_from_1 (faq_pairs faq)) ++
         [StSubheader (lit "Statistics"); StJson (get_statistics E faq)])
      removed
  end.

(** The different words of a list, each once. *)
Definition distinct (l : list pystr) : list pystr :=
  nodup (list_eq_dec N.eq_dec) l.

(** A character the filter of [preprocess_text] deletes occurs in [s]. *)
Definition has_stripped (E : Env) (s : pystr) : bool :=
  existsb (stripped_char E) s.

(** * Properties *)

(** ** Lists and strings *)

Lemma str_eqb_eq (a b : pystr) : str_eqb a b = true <-> a = b.
Proof.
  revert b; induction a as [|x a IH]; intros [|y b]; simpl; split;
    try congruence; try reflexivity.
  - rewrite andb_true_iff, N.eqb_eq, IH. intros [-> ->]. reflexivity.
  - intros H. injection H as -> ->. rewrite N.eqb_refl. simpl. apply IH. reflexivity.
Qed.

Lemma str_eqb_refl (a : pystr) : str_eqb a a = true.
Proof. apply str_eqb_eq. reflexivity. Qed.

Lemma str_eqb_neq (a b : pystr) : str_eqb a b = false <-> a <> b.
Proof.
  rewrite <- str_eqb_eq. destruct (str_eqb a b); split; congruence.
Qed.

Lemma in_set_In (w : pystr) (set : list pystr) : in_set w set = true <-> In w set.
Proof.
  unfold in_set. rewrite existsb_exists. split.
  - intros (x & Hx & Heq). apply str_eqb_eq in Heq. subst. exact Hx.
  - intros H. exists w. split; [exact H | apply str_eqb_refl].
Qed.

Lemma take_drop_while (p : N -> bool) (s : pystr) :
  take_while p s ++ drop_while p s = s.
Proof.
  induction s as [|c s IH]; simpl; [reflexivity|].
  destruct (p c); simpl; [rewrite IH|]; reflexivity.
Qed.

Lemma drop_while_head (p : N -> bool) (s : pystr) c r :
  drop_while p s = c :: r -> p c = false.
Proof.
  induction s as [|x s IH]; simpl; [discriminate|].
  destruct (p x) eqn:Hx; [exact IH|]. intros H. injection H as -> _. exact Hx.
Qed.

Lemma drop_while_suffix (p : N -> bool) (s : pystr) :
  exists pre, s = pre ++ drop_while p s.
Proof. exists (take_while p s). symmetry. apply take_drop_while. Qed.

Lemma drop_while_id (p : N -> bool) (s : pystr) :
  match s with c :: _ => p c = false | [] => True end -> drop_while p s = s.
Proof. destruct s as [|c s]; simpl; [reflexivity|]. intros ->. reflexivity. Qed.

Lemma Forall_drop_while (P : N -> Prop) p s : Forall P s -> Forall P (drop_while p s).
Proof.
  destruct (drop_while_suffix p s) as [pre Hpre]. intros H.
  rewrite Hpre in H. apply Forall_app in H. apply H.
Qed.

(** ** [str.strip()] *)

Lemma strip_shape (s : pystr) :
  exists pre suf, s = pre ++ strip s ++ suf.
Proof.
  unfold strip.
  destruct (drop_while_suffix is_space s) as [pre Hpre].
  destruct (drop_while_suffix is_space (rev (drop_while is_space s))) as [suf Hsuf].
  exists pre, (rev suf).
  rewrite <- rev_app_distr, <- Hsuf, rev_involutive. exact Hpre.
Qed.

Lemma Forall_strip (P : N -> Prop) (s : pystr) : Forall P s -> Forall P (strip s).
Proof.
  destruct (strip_shape s) as (pre & suf & H). intros HP. rewrite H in HP.
  apply Forall_app in HP. destruct HP as [_ HP]. apply Forall_app in HP. apply HP.
Qed.

Lemma strip_no_trailing_space (s : pystr) : ends_with_space (strip s) = false.
Proof.
  unfold ends_with_space, strip. rewrite rev_involutive.
  destruct (drop_while is_space (rev (drop_while is_space s))) as [|c r] eqn:H;
    [reflexivity|].
  simpl. exact (drop_while_head _ _ _ _ H).
Qed.

Lemma strip_no_leading_space (s : pystr) : starts_with_space (strip s) = false.
Proof.
  unfold strip.
  destruct (drop_while is_space s) as [|c d] eqn:Hd; [reflexivity|].
  pose proof (drop_while_head _ _ _ _ Hd) as Hc.
  destruct (drop_while_suffix is_space (rev (c :: d))) as [pre Hpre].
  destruct (drop_while is_space (rev (c :: d))) as [|x r] eqn:Hr; [reflexivity|].
  apply (f_equal (@rev N)) in Hpre. rewrite rev_involutive, rev_app_distr in Hpre.
  destruct (rev (x :: r)) as [|y t] eqn:Hrev.
  - apply (f_equal (@length N)) in Hrev. rewrite length_rev in Hrev. discriminate.
  - simpl in Hpre. injection Hpre as <- _. exact Hc.
Qed.

Lemma strip_length (s : pystr) : length (strip s) <= length s.
Proof.
  destruct (strip_shape s) as (pre & suf & H).
  rewrite H at 2. rewrite !length_app. lia.
Qed.

Lemma strip_fixed (s : pystr) :
  starts_with_space s = false -> ends_with_space s = false -> strip s = s.
Proof.
  unfold strip, ends_with_space. intros H1 H2.
  rewrite (drop_while_id is_space s).
  - rewrite (drop_while_id is_space (rev s)); [apply rev_involutive|].
    destruct (rev s); [exact I | exact H2].
  - destruct s; [exact I | exact H1].
Qed.

Lemma strip_blank (s : pystr) : forallb is_space s = true -> strip s = [].
Proof.
  intros H. unfold strip.
  assert (Hd : drop_while is_space s = []).
  { induction s as [|c s IH]; simpl in *; [reflexivity|].
    apply andb_true_iff in H. destruct H as [-> H]. exact (IH H). }
  rewrite Hd. reflexivity.
Qed.

(** ** Substitution *)

Section Substitution.

Variable m : pystr -> option nat.
Variable repl : pystr.

(** What a substitution writes is either replacement text or a character
    of the subject that stood where the pattern did not match. *)
Lemma re_sub_from_elements (P : N -> Prop) (s : pystr) :
  Forall P repl ->
  (forall c t, In c s -> m (c :: t) = None \/ m (c :: t) = Some 0 -> P c) ->
  forall skip, Forall P (re_sub_from m repl skip s).
Proof.
  intros Hrepl. induction s as [|c s IH]; intros Hs skip; simpl; [constructor|].
  assert (IH' : forall k, Forall P (re_sub_from m repl k s)).
  { apply IH. intros x t Hx. apply Hs. right. exact Hx. }
  destruct skip as [|k]; [|apply IH'].
  destruct (m (c :: s)) as [[|k]|] eqn:Hm.
  - constructor; [|apply IH']. apply (Hs c s); [left; reflexivity | right; exact Hm].
  - apply Forall_app. split; [exact Hrepl | apply IH'].
  - constructor; [|apply IH']. apply (Hs c s); [left; reflexivity | left; exact Hm].
Qed.

Lemma re_sub_from_Forall (P : N -> Prop) (s : pystr) :
  Forall P repl -> Forall P s -> forall skip, Forall P (re_sub_from m repl skip s).
Proof.
  intros Hrepl Hs. apply re_sub_from_elements; [exact Hrepl|].
  intros c t Hc _. rewrite Forall_forall in Hs. exact (Hs c Hc).
Qed.

(** Where the pattern matches nowhere the subject comes back unchanged. *)
Lemma re_sub_no_match (s : pystr) :
  (forall pre t, s = pre ++ t -> m t = None) -> re_sub m repl s = s.
Proof.
  unfold re_sub. induction s as [|c s IH]; intros H; simpl; [reflexivity|].
  rewrite (H [] (c :: s) eq_refl). f_equal. apply IH.
  intros pre t Heq. apply (H (c :: pre)). simpl. rewrite Heq. reflexivity.
Qed.

(** A replacement of at most one character never lengthens the subject. *)
Lemma re_sub_from_length (s : pystr) :
  length repl <= 1 ->
  forall skip, length (re_sub_from m repl skip s) + Nat.min skip (length s) <= length s.
Proof.
  intros Hrepl. induction s as [|c s IH]; intros skip; simpl; [lia|].
  destruct skip as [|k].
  - destruct (m (c :: s)) as [[|k]|]; simpl.
    + specialize (IH 0). lia.
    + rewrite length_app. specialize (IH k). lia.
    + specialize (IH 0). lia.
  - specialize (IH k). lia.
Qed.

Lemma re_sub_length (s : pystr) :
  length repl <= 1 -> length (re_sub m repl s) <= length s.
Proof.
  intros Hrepl. pose proof (re_sub_from_length s Hrepl 0) as H.
  unfold re_sub. lia.
Qed.

End Substitution.

(** A deletion shortens the subject as soon as the pattern occurs in it. *)
Lemma re_sub_delete_shorter (m : pystr -> option nat) (s : pystr) :
  (forall t n, m t = Some n -> 0 < n /\ t <> []) ->
  has_match m s = true ->
  length (re_sub m [] s) < length s.
Proof.
  intros Hpos. unfold re_sub. induction s as [|c s IH]; intros H.
  - simpl in H. destruct (m []) as [n|] eqn:Hm; [|discriminate].
    destruct (Hpos _ _ Hm) as [_ Hne]. congruence.
  - cbn [has_match] in H. cbn [re_sub_from].
    destruct (m (c :: s)) as [[|k]|] eqn:Hm.
    + destruct (Hpos _ _ Hm) as [Hn _]. lia.
    + cbn [app length].
      pose proof (re_sub_from_length m [] s (Nat.le_0_l 1) k). lia.
    + simpl in H. specialize (IH H). cbn [length]. lia.
Qed.

Lemma m_plus_cons (p : N -> bool) (c : N) (s : pystr) :
  m_plus p (c :: s)
  = if p c then Some (S (length (take_while p s))) else None.
Proof. unfold m_plus. cbn [take_while]. destruct (p c); reflexivity. Qed.

(** Collapsing whitespace shortens a text that holds two adjacent spaces. *)
Lemma collapse_shorter (s : pystr) :
  has_run 32 s = true ->
  length (re_sub (m_plus is_space) [32%N] s) < length s.
Proof.
  unfold re_sub. induction s as [|c s IH]; intros H; [discriminate|].
  cbn [has_run] in H. cbn [re_sub_from]. rewrite m_plus_cons.
  destruct (is_space c) eqn:Hc.
  - cbn [app length].
    pose proof (re_sub_from_length (m_plus is_space) [32%N] s (le_n 1)
                  (length (take_while is_space s))) as Hlen.
    destruct s as [|d s]; [rewrite andb_false_r in H; discriminate|].
    cbn [take_while] in *. destruct (is_space d) eqn:Hd.
    + cbn [length] in *. lia.
    + apply orb_true_iff in H. destruct H as [H|H].
      * apply andb_true_iff in H. destruct H as [_ H].
        apply N.eqb_eq in H. subst d. discriminate.
      * specialize (IH H). cbn [length] in *. lia.
  - cbn [length]. apply orb_true_iff in H. destruct H as [H|H].
    + apply andb_true_iff in H. destruct H as [H _].
      apply N.eqb_eq in H. subst c. discriminate.
    + specialize (IH H). lia.
Qed.

Lemma m_plus_None (p : N -> bool) (c : N) (t : pystr) :
  m_plus p (c :: t) = None \/ m_plus p (c :: t) = Some 0 -> p c = false.
Proof.
  unfold m_plus. simpl. destruct (p c); [|reflexivity].
  simpl. intros [H|H]; discriminate.
Qed.

Lemma m_plus_absent (p : N -> bool) (s : pystr) :
  Forall (fun c => p c = false) s -> forall pre t, s = pre ++ t -> m_plus p t = None.
Proof.
  intros Hs pre t ->. apply Forall_app in Hs. destruct Hs as [_ Ht].
  destruct t as [|c t]; [reflexivity|].
  unfold m_plus. simpl. inversion Ht as [|? ? Hc _]. rewrite Hc. reflexivity.
Qed.

(** ** Normaliser *)

Section NormalizerFacts.

Variable E : Env.

(** After the second substitution whitespace is plain, and so it stays. *)
Lemma collapse_only_plain_spaces (s : pystr) :
  only_plain_spaces (re_sub (m_plus is_space) [32%N] s).
Proof.
  apply re_sub_from_elements.
  - constructor; [reflexivity | constructor].
  - intros c t _ Hm Hsp. apply m_plus_None in Hm. congruence.
Qed.

Lemma plain_spaces_no_newline (s : pystr) :
  only_plain_spaces s -> Forall (fun c => N.eqb 10 c = false) s.
Proof.
  apply Forall_impl. intros c H.
  destruct (N.eqb 10 c) eqn:Hc; [|reflexivity].
  apply N.eqb_eq in Hc. subst c. specialize (H eq_refl). discriminate.
Qed.

Lemma preprocess_text_unfold (text : pystr) :
  preprocess_text E text = strip (before_strip E text).
Proof. reflexivity. Qed.

Lemma before_strip_plain (text : pystr) : only_plain_spaces (before_strip E text).
Proof.
  unfold before_strip.
  set (t2 := re_sub (m_plus is_space) [32%N] _).
  assert (H2 : only_plain_spaces t2) by apply collapse_only_plain_spaces.
  rewrite (re_sub_no_match (m_plus (N.eqb 10)) [10%N] t2)
    by (apply m_plus_absent, plain_spaces_no_newline, H2).
  do 3 (apply re_sub_from_Forall; [constructor|]). exact H2.
Qed.

Lemma preprocess_text_plain (text : pystr) :
  only_plain_spaces (preprocess_text E text).
Proof. rewrite preprocess_text_unfold. apply Forall_strip, before_strip_plain. Qed.

Lemma before_strip_kept (text : pystr) :
  Forall (fun c => stripped_char E c = false) (before_strip E text).
Proof.
  unfold before_strip.
  do 2 (apply re_sub_from_Forall; [constructor|]).
  apply re_sub_from_elements; [constructor|].
  intros c t _ Hm. exact (m_plus_None _ _ _ Hm).
Qed.

Lemma preprocess_text_kept (text : pystr) :
  Forall (fun c => stripped_char E c = false) (preprocess_text E text).
Proof. rewrite preprocess_text_unfold. apply Forall_strip, before_strip_kept. Qed.

(** *** The steps on normalised text *)

Lemma has_match_absent (m : pystr -> option nat) (s : pystr) :
  has_match m s = false -> forall pre t, s = pre ++ t -> m t = None.
Proof.
  induction s as [|c s IH]; intros H pre t Heq.
  - destruct pre; [|discriminate]. simpl in Heq. subst t.
    simpl in H. destruct (m []); [discriminate | reflexivity].
  - simpl in H. apply orb_false_iff in H. destruct H as [Hm Hs].
    destruct pre as [|x pre]; simpl in Heq.
    + subst t. destruct (m (c :: s)); [discriminate | reflexivity].
    + injection Heq as _ Heq. exact (IH Hs pre t Heq).
Qed.

Lemma crlf_absent (s : pystr) :
  only_plain_spaces s -> forall pre t, s = pre ++ t -> m_literal [13%N; 10%N] t = None.
Proof.
  intros Hs pre t ->. apply Forall_app in Hs. destruct Hs as [_ Ht].
  destruct t as [|c t]; [reflexivity|].
  unfold m_literal. cbn [prefixb]. destruct (N.eqb 13 c) eqn:Hc; [|reflexivity].
  apply N.eqb_eq in Hc. subst c. inversion Ht as [|? ? H _].
  specialize (H eq_refl). discriminate.
Qed.

Lemma collapse_fixed (s : pystr) :
  only_plain_spaces s -> has_run 32 s = false ->
  re_sub (m_plus is_space) [32%N] s = s.
Proof.
  unfold re_sub. induction s as [|c s IH]; intros Hp Hr; [reflexivity|].
  inversion Hp as [|? ? Hc Hp']; subst.
  simpl in Hr. apply orb_false_iff in Hr. destruct Hr as [Hcc Hr].
  specialize (IH Hp' Hr).
  cbn [re_sub_from]. unfold m_plus. cbn [take_while].
  destruct (is_space c) eqn:Hsp; cbn [length]; [|f_equal; exact IH].
  rewrite (Hc eq_refl) in *. 
  destruct s as [|d s]; [reflexivity|].
  cbn [take_while]. inversion Hp' as [|? ? Hd _]; subst.
  destruct (is_space d) eqn:Hsd.
  - rewrite (Hd eq_refl) in Hcc. discriminate.
  - cbn [length app]. f_equal. exact IH.
Qed.

Lemma slash_is_stripped : stripped_char E 47 = true.
Proof. reflexivity. Qed.

Lemma fraction_absent (s : pystr) :
  Forall (fun c => stripped_char E c = false) s ->
  forall pre t, s = pre ++ t -> m_fraction E t = None.
Proof.
  intros Hs pre t ->. apply Forall_app in Hs. destruct Hs as [_ Ht].
  unfold m_fraction. destruct (length (take_while (is_digit E) t)); [reflexivity|].
  pose proof (Forall_drop_while _ (is_digit E) _ Ht) as Hd.
  destruct (drop_while (is_digit E) t) as [|c r]; [reflexivity|].
  inversion Hd as [|? ? Hc _]; subst.
  destruct c as [|c]; [reflexivity|].
  do 6 (destruct c as [c|c|]; try reflexivity).
  all: try (destruct c; reflexivity).
  rewrite slash_is_stripped in Hc. discriminate.
Qed.

(** Normalised text is a fixed point of the normaliser. *)
Lemma normalized_fixed (u : pystr) : normalized E u -> preprocess_text E u = u.
Proof.
  intros (Hl & Ht & Hp & Hr & Hk & Hm).
  unfold preprocess_text.
  rewrite (re_sub_no_match _ _ _ (crlf_absent _ Hp)).
  rewrite (collapse_fixed _ Hp Hr).
  rewrite (re_sub_no_match _ _ _ (m_plus_absent _ _ (plain_spaces_no_newline _ Hp))).
  rewrite (re_sub_no_match _ _ _ (m_plus_absent _ _ Hk)).
  rewrite (re_sub_no_match _ _ _ (has_match_absent _ _ Hm)).
  rewrite (re_sub_no_match _ _ _ (fraction_absent _ Hk)).
  exact (strip_fixed _ Hl Ht).
Qed.

Lemma m_page_positive (t : pystr) (n : nat) :
  m_page E t = Some n -> 0 < n /\ t <> [].
Proof.
  unfold m_page. destruct t as [|p [|a [|g [|e [|sp rest]]]]]; try discriminate.
  destruct (_ && _); [|discriminate].
  destruct (length (take_while (is_digit E) rest)); [discriminate|].
  intros H. injection H as <-. split; [lia | discriminate].
Qed.

(** Conversely, text of the normaliser's making that a further pass leaves
    alone holds no space run and no page marker: either would make the
    pass return a shorter text. *)
Lemma fixed_is_clean (u : pystr) :
  only_plain_spaces u ->
  Forall (fun c => stripped_char E c = false) u ->
  preprocess_text E u = u ->
  has_run 32 u = false /\ has_match (m_page E) u = false.
Proof.
  intros Hp Hk Hfix. unfold preprocess_text in Hfix.
  rewrite (re_sub_no_match _ _ _ (crlf_absent _ Hp)) in Hfix.
  apply (f_equal (@length N)) in Hfix.
  assert (Hrun : has_run 32 u = false).
  { destruct (has_run 32 u) eqn:Hr; [exfalso | reflexivity].
    pose proof (collapse_shorter u Hr) as H2.
    set (s2 := re_sub (m_plus is_space) [32%N] u) in *.
    set (s3 := re_sub (m_plus (N.eqb 10)) [10%N] s2) in *.
    set (s4 := re_sub (m_plus (stripped_char E)) [] s3) in *.
    set (s5 := re_sub (m_page E) [] s4) in *.
    set (s6 := re_sub (m_fraction E) [] s5) in *.
    pose proof (re_sub_length (m_plus (N.eqb 10)) [10%N] s2 (le_n 1)) as H3.
    pose proof (re_sub_length (m_plus (stripped_char E)) [] s3 (Nat.le_0_l 1)) as H4.
    pose proof (re_sub_length (m_page E) [] s4 (Nat.le_0_l 1)) as H5.
    pose proof (re_sub_length (m_fraction E) [] s5 (Nat.le_0_l 1)) as H6.
    pose proof (strip_length s6) as H7.
    fold s3 in H3. fold s4 in H4. fold s5 in H5. fold s6 in H6. lia. }
  split; [exact Hrun|].
  rewrite (collapse_fixed _ Hp Hrun) in Hfix.
  rewrite (re_sub_no_match _ _ _ (m_plus_absent _ _ (plain_spaces_no_newline _ Hp))) in Hfix.
  rewrite (re_sub_no_match _ _ _ (m_plus_absent _ _ Hk)) in Hfix.
  destruct (has_match (m_page E) u) eqn:Hm; [exfalso | reflexivity].
  pose proof (re_sub_delete_shorter (m_page E) u m_page_positive Hm) as H5.
  pose proof (re_sub_length (m_fraction E) [] (re_sub (m_page E) [] u) (Nat.le_0_l 1)) as H6.
  pose proof (strip_length (re_sub (m_fraction E) [] (re_sub (m_page E) [] u))) as H7.
  lia.
Qed.

(** On ASCII text the normaliser needs none of the Unicode tables. *)
Lemma preprocess_text_hash : preprocess_text E (lit "a # b") = lit "a  b".
Proof. reflexivity. Qed.

Lemma preprocess_text_hash_again : preprocess_text E (lit "a  b") = lit "a b".
Proof. reflexivity. Qed.

Lemma preprocess_text_nested_marker :
  preprocess_text E (lit "PaPage 1ge 2") = lit "Page 2" /\
  preprocess_text E (lit "Page 2") = [].
Proof. split; reflexivity. Qed.

Lemma preprocess_text_edges (text : pystr) :
  starts_with_space (preprocess_text E text) = false /\
  ends_with_space (preprocess_text E text) = false.
Proof.
  rewrite preprocess_text_unfold.
  split; [apply strip_no_leading_space | apply strip_no_trailing_space].
Qed.

End NormalizerFacts.

(** *** The steps that matter *)

Lemma collapse_squeeze (s : pystr) :
  re_sub_from (m_plus is_space) [32%N] 0 s = squeeze false s /\
  re_sub_from (m_plus is_space) [32%N] (length (take_while is_space s)) s
  = squeeze true s.
Proof.
  induction s as [|c s [IH0 IH1]]; [split; reflexivity|].
  cbn [re_sub_from squeeze take_while]. rewrite m_plus_cons.
  destruct (is_space c); cbn [length app].
  - rewrite IH1. split; reflexivity.
  - rewrite IH0. split; reflexivity.
Qed.

Lemma squeeze_cons_space (b : bool) (c : N) (s : pystr) :
  is_space c = true ->
  squeeze b (c :: s) = if b then squeeze true s else 32%N :: squeeze true s.
Proof. intros H. cbn [squeeze]. rewrite H. reflexivity. Qed.

Lemma m_crlf_cons (c : N) (s : pystr) :
  m_literal [13%N; 10%N] (c :: s)
  = match s with
    | d :: _ => if N.eqb 13 c && N.eqb 10 d then Some 2 else None
    | [] => None
    end.
Proof.
  unfold m_literal. cbn [prefixb length].
  destruct s as [|d s]; [rewrite andb_false_r; reflexivity|].
  rewrite andb_true_r. reflexivity.
Qed.

Lemma squeeze_crlf (n : nat) :
  forall s b, length s <= n ->
    squeeze b (re_sub_from (m_literal [13%N; 10%N]) [10%N] 0 s) = squeeze b s.
Proof.
  induction n as [|n IH]; intros s b Hlen.
  - destruct s; [reflexivity | simpl in Hlen; lia].
  - destruct s as [|c s]; [reflexivity|].
    cbn [re_sub_from]. rewrite m_crlf_cons.
    assert (Hs : forall b', squeeze b' (re_sub_from (m_literal [13%N; 10%N]) [10%N] 0 s)
                            = squeeze b' s)
      by (intros b'; apply IH; simpl in Hlen; lia).
    destruct s as [|d s]; [reflexivity|].
    destruct (N.eqb 13 c && N.eqb 10 d) eqn:Hcd.
    + apply andb_true_iff in Hcd. destruct Hcd as [Hc Hd].
      apply N.eqb_eq in Hc, Hd. subst c d. cbn [app re_sub_from].
      rewrite !squeeze_cons_space by reflexivity.
      rewrite (IH s true) by (simpl in Hlen; lia).
      destruct b; reflexivity.
    + cbn [squeeze]. rewrite !Hs. reflexivity.
Qed.

(** Line endings make no difference to the whitespace collapse. *)
Lemma collapse_crlf (s : pystr) :
  re_sub (m_plus is_space) [32%N] (re_sub (m_literal [13%N; 10%N]) [10%N] s)
  = re_sub (m_plus is_space) [32%N] s.
Proof.
  unfold re_sub.
  rewrite (proj1 (collapse_squeeze _)), (proj1 (collapse_squeeze s)).
  apply (squeeze_crlf (length s)). apply le_n.
Qed.

Lemma newline_step_idle (s : pystr) :
  re_sub (m_plus (N.eqb 10)) [10%N] (re_sub (m_plus is_space) [32%N] s)
  = re_sub (m_plus is_space) [32%N] s.
Proof.
  apply re_sub_no_match, m_plus_absent, plain_spaces_no_newline,
    collapse_only_plain_spaces.
Qed.

Lemma fraction_step_idle (E : Env) (s : pystr) :
  re_sub (m_fraction E) []
    (re_sub (m_page E) [] (re_sub (m_plus (stripped_char E)) [] s))
  = re_sub (m_page E) [] (re_sub (m_plus (stripped_char E)) [] s).
Proof.
  apply re_sub_no_match, fraction_absent.
  apply re_sub_from_Forall; [constructor|].
  apply re_sub_from_elements; [constructor|].
  intros c t _ Hm. exact (m_plus_None _ _ _ Hm).
Qed.

Lemma preprocess_text_is_core (E : Env) (text : pystr) :
  preprocess_text E text = preprocess_core E text.
Proof.
  unfold preprocess_text, preprocess_core.
  rewrite collapse_crlf, newline_step_idle, fraction_step_idle. reflexivity.
Qed.

Lemma has_run_app (c : N) (a b : pystr) :
  has_run c (a ++ b) = false -> has_run c a = false /\ has_run c b = false.
Proof.
  induction a as [|x a IH]; intros H; [split; [reflexivity | exact H]|].
  cbn [app has_run] in H. apply orb_false_iff in H. destruct H as [Hx H].
  destruct (IH H) as [Ha Hb]. split; [|exact Hb].
  cbn [has_run]. apply orb_false_iff. split; [|exact Ha].
  destruct a as [|y a]; [apply andb_false_r | exact Hx].
Qed.

(** [strip()] returns a segment of its argument, so it makes no new run. *)
Lemma has_run_strip (c : N) (s : pystr) :
  has_run c s = false -> has_run c (strip s) = false.
Proof.
  intros H. destruct (strip_shape s) as (pre & suf & Heq).
  rewrite Heq in H. apply has_run_app in H. destruct H as [_ H].
  apply has_run_app in H. exact (proj1 H).
Qed.

Lemma squeeze_no_run (s : pystr) :
  has_run 32 (squeeze false s) = false /\
  has_run 32 (squeeze true s) = false /\
  match squeeze true s with c :: _ => N.eqb c 32 = false | [] => True end.
Proof.
  induction s as [|c s (IH0 & IH1 & IHhd)]; [repeat split|].
  cbn [squeeze]. destruct (is_space c) eqn:Hc.
  - repeat split; try assumption.
    cbn [has_run]. rewrite IH1, orb_false_r.
    destruct (squeeze true s); [reflexivity|]. rewrite IHhd. reflexivity.
  - assert (Hne : N.eqb c 32 = false).
    { destruct (N.eqb c 32) eqn:H; [|reflexivity].
      apply N.eqb_eq in H. subst c. discriminate. }
    cbn [has_run]. rewrite Hne, IH0. repeat split; assumption.
Qed.

(** The whitespace collapse leaves no two spaces side by side. *)
Lemma collapse_no_run (s : pystr) :
  has_run 32 (re_sub (m_plus is_space) [32%N] s) = false.
Proof.
  unfold re_sub. rewrite (proj1 (collapse_squeeze s)). apply squeeze_no_run.
Qed.

Lemma has_stripped_false (E : Env) (s : pystr) :
  has_stripped E s = false -> Forall (fun c => stripped_char E c = false) s.
Proof.
  unfold has_stripped. induction s as [|c s IH]; intros H; [constructor|].
  cbn [existsb] in H. apply orb_false_iff in H. destruct H as [Hc Hs].
  constructor; [exact Hc | exact (IH Hs)].
Qed.

(** When the filter finds nothing to delete and the collapsed text holds no
    page marker, the normaliser is the whitespace collapse followed by
    [strip()]. *)
Lemma preprocess_text_untouched (E : Env) (text : pystr) :
  has_stripped E text = false ->
  has_match (m_page E) (re_sub (m_plus is_space) [32%N] text) = false ->
  preprocess_text E text = strip (re_sub (m_plus is_space) [32%N] text).
Proof.
  intros Hk Hm. apply has_stripped_false in Hk.
  rewrite preprocess_text_is_core. unfold preprocess_core.
  assert (Hk2 : Forall (fun c => stripped_char E c = false)
                  (re_sub (m_plus is_space) [32%N] text)).
  { apply re_sub_from_Forall; [repeat constructor | exact Hk]. }
  rewrite (re_sub_no_match _ _ _ (m_plus_absent _ _ Hk2)).
  rewrite (re_sub_no_match _ _ _ (has_match_absent _ _ Hm)).
  reflexivity.
Qed.

Lemma no_newline_no_run (s : pystr) : ~ In 10%N s -> has_run 10 s = false.
Proof.
  induction s as [|c s IH]; intros Hn; [reflexivity|].
  cbn [has_run]. apply orb_false_iff. split.
  - destruct (N.eqb c 10) eqn:Hc; [|reflexivity].
    apply N.eqb_eq in Hc. exfalso. apply Hn. left. exact Hc.
  - apply IH. intros H. apply Hn. right. exact H.
Qed.

(** C1, as amended.  For every input the output of [preprocess_text] has no
    leading and no trailing whitespace, and its only whitespace character
    is the plain space: it contains no newline and no other line or space
    separator.  It has no run of two spaces either, and so meets the whole
    guarantee, whenever the input holds no character that the filter
    deletes and the whitespace-collapsed input holds no page marker; a run
    of two spaces in the output therefore shows that the input held a
    deleted character or, once collapsed, a page marker. *)
Theorem preprocess_text_whitespace (E : Env) (text : pystr) :
  starts_with_space (preprocess_text E text) = false /\
  ends_with_space (preprocess_text E text) = false /\
  only_plain_spaces (preprocess_text E text) /\
  ~ In 10%N (preprocess_text E text) /\
  has_run 10 (preprocess_text E text) = false /\
  (has_stripped E text = false ->
   has_match (m_page E) (re_sub (m_plus is_space) [32%N] text) = false ->
   has_run 32 (preprocess_text E text) = false /\
   normalizer_guarantee (preprocess_text E text)) /\
  (has_run 32 (preprocess_text E text) = true ->
   has_stripped E text = true \/
   has_match (m_page E) (re_sub (m_plus is_space) [32%N] text) = true).
Proof.
  pose proof (preprocess_text_plain E text) as Hp.
  assert (Hn : ~ In 10%N (preprocess_text E text)).
  { intros Hin. unfold only_plain_spaces in Hp. rewrite Forall_forall in Hp.
    specialize (Hp _ Hin eq_refl). discriminate. }
  destruct (preprocess_text_edges E text) as [Hl Ht].
  pose proof (no_newline_no_run _ Hn) as Hnl.
  assert (Hcond : has_stripped E text = false ->
                  has_match (m_page E) (re_sub (m_plus is_space) [32%N] text) = false ->
                  has_run 32 (preprocess_text E text) = false).
  { intros Hk Hm. rewrite (preprocess_text_untouched E text Hk Hm).
    apply has_run_strip, collapse_no_run. }
  split; [exact Hl|]. split; [exact Ht|]. split; [exact Hp|].
  split; [exact Hn|]. split; [exact Hnl|]. split.
  - intros Hk Hm. pose proof (Hcond Hk Hm) as Hr.
    split; [exact Hr|]. unfold normalizer_guarantee. auto.
  - intros Hr.
    destruct (has_stripped E text) eqn:Hk; [left; reflexivity|].
    destruct (has_match (m_page E) (re_sub (m_plus is_space) [32%N] text)) eqn:Hm;
      [right; reflexivity|].
    rewrite (Hcond eq_refl eq_refl) in Hr. discriminate.
Qed.

Lemma preprocess_text_whitespace_witness :
  preprocess_text Stub.env [32; 72; 105; 44; 13; 10; 9; 32; 109; 111; 109; 46; 10]%N
  = lit "Hi, mom." /\
  normalizer_guarantee
    (preprocess_text Stub.env [32; 72; 105; 44; 13; 10; 9; 32; 109; 111; 109; 46; 10]%N).
Proof.
  split; [reflexivity|].
  apply (proj1 (proj2 (proj2 (proj2 (proj2 (proj2
           (preprocess_text_whitespace Stub.env
              [32; 72; 105; 44; 13; 10; 9; 32; 109; 111; 109; 46; 10]%N))))))).
  - reflexivity.
  - reflexivity.
Defined.

(** C1 as the specification words it fails on "a # b": the symbol between
    the two spaces goes after the whitespace was collapsed, and the two
    spaces stay. *)
Lemma preprocess_text_space_run :
  preprocess_text Stub.env (lit "a # b") = lit "a  b" /\
  ~ normalizer_guarantee (preprocess_text Stub.env (lit "a # b")).
Proof.
  split; [reflexivity|].
  intros (_ & _ & H & _). vm_compute in H. discriminate.
Qed.

(** A second pass over text of the normaliser's making that holds a run of
    two spaces or a page marker returns fewer characters. *)
Lemma second_pass_shorter (E : Env) (u : pystr) :
  only_plain_spaces u ->
  Forall (fun c => stripped_char E c = false) u ->
  has_run 32 u = true \/ has_match (m_page E) u = true ->
  length (preprocess_text E u) < length u.
Proof.
  intros Hp Hk Hdirty. rewrite preprocess_text_is_core. unfold preprocess_core.
  set (s2 := re_sub (m_plus is_space) [32%N] u).
  set (s4 := re_sub (m_plus (stripped_char E)) [] s2).
  set (s5 := re_sub (m_page E) [] s4).
  pose proof (re_sub_length (m_plus (stripped_char E)) [] s2 (Nat.le_0_l 1)) as H4.
  pose proof (re_sub_length (m_page E) [] s4 (Nat.le_0_l 1)) as H5.
  pose proof (strip_length s5) as H7.
  fold s4 in H4. fold s5 in H5.
  destruct (has_run 32 u) eqn:Hr.
  - pose proof (collapse_shorter u Hr) as H2. fold s2 in H2. lia.
  - destruct Hdirty as [Hd|Hm]; [discriminate|].
    assert (E2 : s2 = u) by exact (collapse_fixed u Hp Hr).
    assert (E4 : s4 = u).
    { unfold s4. rewrite E2. exact (re_sub_no_match _ _ _ (m_plus_absent _ _ Hk)). }
    pose proof (re_sub_delete_shorter (m_page E) u (m_page_positive E) Hm) as H6.
    unfold s5 in H7 |- *. rewrite E4 in H7 |- *. lia.
Qed.

(** C2, as amended.  Normalising the output of the normaliser again returns
    it unchanged exactly when that output has no run of two spaces and no
    "Page <digits>" marker; in every other case the second pass returns a
    strictly shorter text. *)
Theorem preprocess_text_idempotent_iff_clean (E : Env) (text : pystr) :
  (preprocess_text E (preprocess_text E text) = preprocess_text E text <->
   has_run 32 (preprocess_text E text) = false /\
   has_match (m_page E) (preprocess_text E text) = false) /\
  (has_run 32 (preprocess_text E text) = true \/
   has_match (m_page E) (preprocess_text E text) = true ->
   length (preprocess_text E (preprocess_text E text))
   < length (preprocess_text E text)) /\
  (preprocess_text E (preprocess_text E text) <> preprocess_text E text ->
   length (preprocess_text E (preprocess_text E text))
   < length (preprocess_text E text)).
Proof.
  pose proof (preprocess_text_plain E text) as Hp.
  pose proof (preprocess_text_kept E text) as Hk.
  destruct (preprocess_text_edges E text) as [Hl Ht].
  assert (Hclean : has_run 32 (preprocess_text E text) = false /\
                   has_match (m_page E) (preprocess_text E text) = false ->
                   preprocess_text E (preprocess_text E text) = preprocess_text E text).
  { intros [Hr Hm]. apply normalized_fixed. repeat split; assumption. }
  split; [split; [exact (fixed_is_clean E _ Hp Hk) | exact Hclean]|].
  split; [exact (second_pass_shorter E _ Hp Hk)|].
  intros Hne. apply (second_pass_shorter E _ Hp Hk).
  destruct (has_run 32 (preprocess_text E text)) eqn:Hr; [left; reflexivity|].
  destruct (has_match (m_page E) (preprocess_text E text)) eqn:Hm; [right; reflexivity|].
  exfalso. apply Hne, Hclean. split; reflexivity.
Qed.

Lemma preprocess_text_idempotent_iff_clean_witness :
  preprocess_text Stub.env (lit "  Hello   world! ") = lit "Hello world!" /\
  preprocess_text Stub.env (preprocess_text Stub.env (lit "  Hello   world! "))
  = preprocess_text Stub.env (lit "  Hello   world! ").
Proof.
  split; [reflexivity|].
  apply (proj2 (proj1 (preprocess_text_idempotent_iff_clean Stub.env
                         (lit "  Hello   world! ")))).
  split; reflexivity.
Defined.

(** C2 as the specification words it fails on "a # b": the first pass
    leaves two spaces, the second collapses them. *)
Lemma preprocess_text_not_idempotent :
  preprocess_text Stub.env (preprocess_text Stub.env (lit "a # b"))
  <> preprocess_text Stub.env (lit "a # b").
Proof. vm_compute. discriminate. Qed.

(** ** Deduplicator *)

Section DeduplicatorFacts.

Variable E : Env.

Lemma dedup_loop_acc (unique : list FAQPair) (seen : list pystr) (faqs : list FAQPair) :
  dedup_loop E unique seen faqs = unique ++ dedup_loop E [] seen faqs.
Proof.
  revert unique seen. induction faqs as [|p faqs IH]; intros unique seen; simpl.
  - rewrite app_nil_r. reflexivity.
  - destruct (in_set (question_key E p) seen).
    + apply IH.
    + rewrite IH. rewrite (IH [p]). rewrite <- app_assoc. reflexivity.
Qed.

Lemma dedup_loop_NoDup (faqs : list FAQPair) :
  forall unique seen,
    (forall p, In p unique -> In (question_key E p) seen) ->
    NoDup (map (question_key E) unique) ->
    NoDup (map (question_key E) (dedup_loop E unique seen faqs)).
Proof.
  induction faqs as [|p faqs IH]; intros unique seen Hseen Hnd; simpl; [exact Hnd|].
  destruct (in_set (question_key E p) seen) eqn:Hin.
  - apply IH; assumption.
  - apply IH.
    + intros q Hq. apply in_app_or in Hq. destruct Hq as [Hq|[<-|[]]].
      * right. apply Hseen, Hq.
      * left. reflexivity.
    + rewrite map_app. apply NoDup_app; [exact Hnd | repeat constructor; intros [] |].
      intros k Hk [<-|[]]. apply in_map_iff in Hk. destruct Hk as (q & Hq & Hin').
      apply Hseen in Hin'. rewrite Hq in Hin'.
      apply in_set_In in Hin'. congruence.
Qed.

(** The loop on the rest [faqs] of a list whose part [pre] was read. *)
Lemma dedup_loop_positions (faqs : list FAQPair) :
  forall pre seen,
    (forall k, In k seen <-> In k (map (question_key E) pre)) ->
    dedup_loop E [] seen faqs
    = map (fun i => nth i (pre ++ faqs) (mkPair [] []))
          (filter (fun i => negb (duplicates_earlier E (pre ++ faqs) i))
                  (seq (length pre) (length faqs))).
Proof.
  induction faqs as [|p faqs IH]; intros pre seen Hseen; [reflexivity|].
  cbn [dedup_loop length seq filter].
  assert (Hdup : duplicates_earlier E (pre ++ p :: faqs) (length pre)
                 = in_set (question_key E p) seen).
  { unfold duplicates_earlier.
    rewrite firstn_app, Nat.sub_diag, firstn_all, firstn_O, app_nil_r.
    rewrite app_nth2, Nat.sub_diag by lia. cbn [nth].
    apply eq_true_iff_eq. rewrite existsb_exists, in_set_In, Hseen, in_map_iff.
    split.
    - intros (q & Hq & Heq). apply str_eqb_eq in Heq. exists q. split; assumption.
    - intros (q & Heq & Hq). exists q. split; [exact Hq|]. apply str_eqb_eq. exact Heq. }
  rewrite Hdup.
  assert (Hshift : pre ++ p :: faqs = (pre ++ [p]) ++ faqs)
    by (rewrite <- app_assoc; reflexivity).
  assert (Hlen : S (length pre) = length (pre ++ [p]))
    by (rewrite length_app; simpl; lia).
  destruct (in_set (question_key E p) seen) eqn:Hin; cbn [negb map].
  - rewrite Hshift, Hlen. apply IH.
    intros k. rewrite map_app, in_app_iff, <- Hseen. cbn [map In].
    apply in_set_In in Hin. split; [tauto|]. intros [H|[<-|[]]]; assumption.
  - rewrite dedup_loop_acc. cbn [app]. f_equal.
    + rewrite app_nth2, Nat.sub_diag by lia. reflexivity.
    + rewrite Hshift, Hlen. apply IH.
      intros k. rewrite map_app, in_app_iff, <- Hseen. cbn [map In]. tauto.
Qed.

Lemma remove_duplicate_questions_positions (faqs : list FAQPair) :
  remove_duplicate_questions E faqs
  = map (fun i => nth i faqs (mkPair [] [])) (first_occurrence_indices E faqs).
Proof.
  unfold remove_duplicate_questions, first_occurrence_indices.
  apply (dedup_loop_positions faqs [] []). intros k. simpl. tauto.
Qed.

Lemma remove_duplicate_questions_NoDup (faqs : list FAQPair) :
  NoDup (map (question_key E) (remove_duplicate_questions E faqs)).
Proof.
  apply dedup_loop_NoDup; [intros p [] | constructor].
Qed.

(** What [duplicates_earlier] decides. *)
Lemma duplicates_earlier_spec (faqs : list FAQPair) (i : nat) :
  i < length faqs ->
  (duplicates_earlier E faqs i = false <->
   forall j, j < i ->
     question_key E (nth j faqs (mkPair [] [])) <> question_key E (nth i faqs (mkPair [] []))).
Proof.
  intros Hi. unfold duplicates_earlier. split.
  - intros H j Hj Heq.
    assert (Hex : existsb (fun q => str_eqb (question_key E q)
                    (question_key E (nth i faqs (mkPair [] [])))) (firstn i faqs) = true).
    { apply existsb_exists. exists (nth j faqs (mkPair [] [])). split.
      - rewrite <- (firstn_skipn i faqs) at 1.
        rewrite app_nth1 by (rewrite length_firstn; lia).
        apply nth_In. rewrite length_firstn. lia.
      - apply str_eqb_eq. exact Heq. }
    congruence.
  - intros H. apply not_true_is_false. intros Hex.
    apply existsb_exists in Hex. destruct Hex as (q & Hq & Heq).
    apply str_eqb_eq in Heq.
    destruct (In_nth _ _ (mkPair [] []) Hq) as (j & Hj & Hnth).
    rewrite length_firstn in Hj.
    apply (H j); [lia|].
    rewrite <- (firstn_skipn i faqs) at 1.
    rewrite app_nth1 by (rewrite length_firstn; lia).
    rewrite Hnth. exact Heq.
Qed.

Lemma count_question_NoDup (q : pystr) (faqs : list FAQPair) :
  NoDup (map (question_key E) faqs) -> count_question q faqs <= 1.
Proof.
  unfold count_question. induction faqs as [|p faqs IH]; intros Hnd; simpl; [lia|].
  inversion Hnd as [|? ? Hnotin Hnd']; subst. specialize (IH Hnd').
  destruct (str_eqb (question p) q) eqn:Hp; [|lia].
  apply str_eqb_eq in Hp. simpl.
  destruct (filter (fun p0 => str_eqb (question p0) q) faqs) as [|p' r] eqn:Hf; [simpl; lia|].
  exfalso. apply Hnotin.
  assert (Hin : In p' (filter (fun p0 => str_eqb (question p0) q) faqs))
    by (rewrite Hf; left; reflexivity).
  apply filter_In in Hin. destruct Hin as [Hin Hq]. apply str_eqb_eq in Hq.
  apply in_map_iff. exists p'. split; [|exact Hin].
  unfold question_key. rewrite Hq, Hp. reflexivity.
Qed.

End DeduplicatorFacts.

Lemma first_occurrence_indices_In (E : Env) (faqs : list FAQPair) (i : nat) :
  i < length faqs ->
  (In i (first_occurrence_indices E faqs) <->
   forall j, j < i ->
     question_key E (nth j faqs (mkPair [] []))
     <> question_key E (nth i faqs (mkPair [] []))).
Proof.
  intros Hi. unfold first_occurrence_indices.
  rewrite filter_In, in_seq, negb_true_iff, (duplicates_earlier_spec E faqs i Hi).
  split; [tauto|]. intros H. split; [lia | exact H].
Qed.

(** C5.  The output of the deduplicator holds no two pairs with the same
    lowercased, trimmed question; it is the input pairs at the positions
    [first_occurrence_indices], which ascend, so first-occurrence order is
    kept and the pairs, answers included, are the input's own; and a
    position is among them exactly when no earlier pair has the same
    lowercased, trimmed question. *)
Theorem remove_duplicate_questions_first_occurrences (E : Env) (faqs : list FAQPair) :
  NoDup (map (question_key E) (remove_duplicate_questions E faqs)) /\
  remove_duplicate_questions E faqs
  = map (fun i => nth i faqs (mkPair [] [])) (first_occurrence_indices E faqs) /\
  StronglySorted lt (first_occurrence_indices E faqs) /\
  forall i, i < length faqs ->
    (In i (first_occurrence_indices E faqs) <->
     forall j, j < i ->
       question_key E (nth j faqs (mkPair [] []))
       <> question_key E (nth i faqs (mkPair [] []))).
Proof.
  split; [apply remove_duplicate_questions_NoDup|].
  split; [apply remove_duplicate_questions_positions|].
  split.
  - unfold first_occurrence_indices. generalize 0 as start.
    generalize (length faqs) as n. intros n.
    induction n as [|n IH]; intros start; simpl; [constructor|].
    assert (Htail : Forall (lt start)
              (filter (fun i => negb (duplicates_earlier E faqs i)) (seq (S start) n))).
    { apply Forall_forall. intros x Hx. apply filter_In in Hx.
      destruct Hx as [Hx _]. apply in_seq in Hx. lia. }
    destruct (negb (duplicates_earlier E faqs start)); [|apply IH].
    constructor; [apply IH | exact Htail].
  - intros i Hi. apply first_occurrence_indices_In, Hi.
Qed.

(** ** The session *)

Section SessionFacts.

Variable E : Env.

(** The call starts from the reset state whatever the session held. *)
Lemma process_document_reset (self : State) (input_str : pystr) :
  process_document E self input_str = process_document E init_state input_str.
Proof. reflexivity. Qed.

Lemma process_document_without_text (self : State) (input_str : pystr) :
  acquire E input_str = [] ->
  process_document E self input_str = (init_state, false).
Proof.
  intros H. unfold process_document. cbn [set_raw_text raw_text].
  rewrite H. reflexivity.
Qed.

Lemma process_document_with_text (self : State) (input_str : pystr) :
  acquire E input_str <> [] ->
  snd (process_document E self input_str) = true /\
  raw_text (fst (process_document E self input_str)) = acquire E input_str.
Proof.
  intros H. unfold process_document. cbn [set_raw_text raw_text].
  destruct (acquire E input_str); [congruence|]. split; reflexivity.
Qed.

Lemma acquire_empty : acquire E [] = [].
Proof. reflexivity. Qed.

(** A path ending in .pdf or .txt whose file cannot be read yields no
    text. *)
Lemma acquire_unreadable_pdf (input_str : pystr) :
  endswith (strip (lower E input_str)) (lit ".pdf") = true ->
  pdf_pages E input_str = None ->
  acquire E input_str = [].
Proof.
  intros Hsuffix Hread. unfold acquire, extract_from_pdf.
  rewrite Hsuffix, Hread. reflexivity.
Qed.

Lemma acquire_unreadable_txt (input_str : pystr) :
  endswith (strip (lower E input_str)) (lit ".pdf") = false ->
  endswith (strip (lower E input_str)) (lit ".txt") = true ->
  read_file E input_str = None ->
  acquire E input_str = [].
Proof.
  intros Hpdf Htxt Hread. unfold acquire, extract_from_txt.
  rewrite Hpdf, Htxt, Hread. reflexivity.
Qed.

(** Pasted text that names no file is taken as it is. *)
Lemma acquire_pasted (input_str : pystr) :
  endswith (strip (lower E input_str)) (lit ".pdf") = false ->
  endswith (strip (lower E input_str)) (lit ".txt") = false ->
  acquire E input_str = input_str.
Proof. intros Hpdf Htxt. unfold acquire. rewrite Hpdf, Htxt. reflexivity. Qed.

(** Both callers strip pasted text before the call, so a blank paste
    arrives as the empty string. *)
Lemma process_document_stripped_blank (self : State) (pasted : pystr) :
  forallb is_space pasted = true ->
  process_document E self (strip pasted) = (init_state, false).
Proof.
  intros H. rewrite (strip_blank _ H).
  apply process_document_without_text, acquire_empty.
Qed.

(** A blank string handed to [process_document] itself is text. *)
Lemma process_document_single_space (self : State) :
  snd (process_document E self (lit " ")) = true /\
  raw_text (fst (process_document E self (lit " "))) = lit " ".
Proof. apply process_document_with_text. discriminate. Qed.

Lemma get_statistics_single_space (self : State) :
  length (get_statistics E (fst (process_document E self (lit " ")))) = 7 /\
  get_statistics E (fst (process_document E self (lit " "))) <> error_record E.
Proof.
  destruct (process_document_single_space self) as [_ Hraw].
  unfold get_statistics. rewrite Hraw. cbn [lit].
  split; [reflexivity | discriminate].
Qed.

End SessionFacts.




(** C4.  A second call with the same input string, in the same environment,
    ends in the same session state as the first: the same result flag, the
    same FAQ pairs and the same statistics record. *)
Theorem process_document_twice (E : Env) (self : State) (input_str : pystr) :
  let first := process_document E self input_str in
  let second := process_document E (fst first) input_str in
  second = first /\
  snd second = snd first /\
  faq_pairs (fst second) = faq_pairs (fst first) /\
  get_statistics E (fst second) = get_statistics E (fst first).
Proof.
  intros first second.
  assert (H : second = first).
  { unfold second, first.
    rewrite (process_document_reset E (fst _) input_str).
    symmetry. apply process_document_reset. }
  rewrite H. repeat split.
Qed.

(** ** Loops that build a list *)

Lemma fold_left_extend {A B : Type} (g : A -> list B) (l : list A) (init : list B) :
  fold_left (fun acc x => acc ++ g x) l init = init ++ flat_map g l.
Proof.
  revert init. induction l as [|x l IH]; intros init; simpl.
  - rewrite app_nil_r. reflexivity.
  - rewrite IH, app_assoc. reflexivity.
Qed.

Lemma fold_left_append_if {A B : Type} (p : A -> bool) (f : A -> B)
      (l : list A) (init : list B) :
  fold_left (fun acc x => if p x then acc ++ [f x] else acc) l init
  = init ++ map f (filter p l).
Proof.
  revert init. induction l as [|x l IH]; intros init; simpl.
  - rewrite app_nil_r. reflexivity.
  - rewrite IH. destruct (p x); [|reflexivity].
    rewrite <- app_assoc. reflexivity.
Qed.

Lemma firstn_incl {A : Type} (n : nat) (l : list A) (x : A) :
  In x (firstn n l) -> In x l.
Proof.
  intros H. rewrite <- (firstn_skipn n l). apply in_or_app. left. exact H.
Qed.

Lemma flat_map_singleton {A B : Type} (f : A -> B) (l : list A) :
  flat_map (fun x => [f x]) l = map f l.
Proof. induction l as [|x l IH]; simpl; [|rewrite IH]; reflexivity. Qed.

Lemma filter_head_find {A : Type} (p : A -> bool) (l : list A) :
  find p l = match filter p l with r :: _ => Some r | [] => None end.
Proof.
  induction l as [|x l IH]; simpl; [reflexivity|].
  destruct (p x); [reflexivity | exact IH].
Qed.

(** ** Substrings *)

Lemma prefixb_spec (pre s : pystr) :
  prefixb pre s = true <-> exists post, s = pre ++ post.
Proof.
  revert s. induction pre as [|x pre IH]; intros s; simpl.
  - split; [intros _; exists s; reflexivity | reflexivity].
  - destruct s as [|y s].
    + split; [discriminate | intros [post H]; discriminate].
    + rewrite andb_true_iff, N.eqb_eq, IH. split.
      * intros [-> [post ->]]. exists post. reflexivity.
      * intros [post H]. injection H as -> ->. split; [reflexivity | exists post; reflexivity].
Qed.

(** [needle in hay] holds exactly when [needle] occurs in [hay]. *)
Lemma str_in_spec (needle hay : pystr) :
  str_in needle hay = true <-> exists pre post, hay = pre ++ needle ++ post.
Proof.
  induction hay as [|c hay IH]; simpl.
  - rewrite orb_false_r, prefixb_spec. split.
    + intros [post H]. exists [], post. exact H.
    + intros (pre & post & H). destruct pre; [|discriminate]. exists post. exact H.
  - rewrite orb_true_iff, prefixb_spec, IH. split.
    + intros [[post H]|(pre & post & H)].
      * exists [], post. exact H.
      * exists (c :: pre), post. simpl. rewrite H. reflexivity.
    + intros (pre & post & H). destruct pre as [|x pre].
      * left. exists post. exact H.
      * right. injection H as _ H. exists pre, post. exact H.
Qed.

Lemma any_in_spec (indicators : list pystr) (s : pystr) :
  any_in indicators s = true <->
  exists ind, In ind indicators /\ str_in ind s = true.
Proof. unfold any_in. apply existsb_exists. Qed.

(** ** Why generator *)

(** C8.  The why generator returns, for the first three sentences (in
    document order) whose lowercased text contains a reason indicator, the
    pair of the fixed question and the trimmed sentence, and nothing else:
    at most three pairs, each under the fixed question. *)
Theorem generate_why_questions_spec (E : Env) (text : pystr) :
  generate_why_questions E text
  = map (fun sent => mkPair why_question (strip sent))
        (firstn 3 (filter (gives_reason E) (sent_tokenize E text))) /\
  length (generate_why_questions E text) <= 3 /\
  Forall (fun p => question p = why_question) (generate_why_questions E text) /\
  forall sent, gives_reason E sent = true <->
               exists ind, In ind reason_indicators /\ str_in ind (lower E sent) = true.
Proof.
  assert (H : generate_why_questions E text
              = map (fun sent => mkPair why_question (strip sent))
                    (firstn 3 (filter (gives_reason E) (sent_tokenize E text)))).
  { unfold generate_why_questions.
    rewrite (fold_left_append_if (gives_reason E)
               (fun sent => mkPair why_question (strip sent))).
    cbn [app]. apply firstn_map. }
  split; [exact H|]. split; [|split].
  - unfold generate_why_questions. apply firstn_le_length.
  - rewrite H. apply Forall_forall. intros p Hp.
    apply in_map_iff in Hp. destruct Hp as (sent & <- & _). reflexivity.
  - intros sent. apply any_in_spec.
Qed.

(** ** Comparison generator *)

Section ComparisonFacts.

Variable E : Env.

Lemma generate_comparison_questions_map (text : pystr) (concepts : list pystr) :
  generate_comparison_questions E text concepts
  = map (comparison_at E (comparison_pool E text) concepts) (comparison_range concepts).
Proof.
  unfold generate_comparison_questions.
  rewrite (fold_left_extend
             (fun i => [comparison_at E (comparison_pool E text) concepts i])).
  cbn [app]. apply flat_map_singleton.
Qed.

Lemma comparison_range_length (concepts : list pystr) :
  length (comparison_range concepts)
  = Z.to_nat (Z.min (Z.of_nat (length concepts) - 1) 3).
Proof. unfold comparison_range. apply length_seq. Qed.

(** The loop never reads past the end of [concepts]. *)
Lemma comparison_range_in_bounds (concepts : list pystr) (i : nat) :
  In i (comparison_range concepts) -> i + 1 < length concepts.
Proof. unfold comparison_range. rewrite in_seq. lia. Qed.

Lemma comparison_fallback_names (c1 c2 : pystr) :
  str_in c1 (comparison_fallback c1 c2) = true /\
  str_in c2 (comparison_fallback c1 c2) = true.
Proof.
  unfold comparison_fallback. split; apply str_in_spec.
  - exists (lit "Both "). eexists. reflexivity.
  - exists (lit "Both " ++ c1 ++ lit " and "). eexists.
    rewrite <- !app_assoc. reflexivity.
Qed.

End ComparisonFacts.

(** C7.  The comparison generator emits [min(len(concepts)-1, 3)] pairs when
    that bound is positive and none otherwise (so never more than the
    bound on adjacent pairs, none for fewer than two concepts, and at least
    one from two concepts on; for the empty list the Python expression is
    -1 and the range of the loop is empty).  Its [i]-th pair asks for the
    difference between [concepts[i]] and [concepts[i+1]], both within the
    list, and answers with the trimmed first pool sentence that names both
    or else with the synthesized sentence, which names both concepts. *)
Theorem generate_comparison_questions_spec (E : Env) (text : pystr) (concepts : list pystr) :
  let out := generate_comparison_questions E text concepts in
  length out = Z.to_nat (Z.min (Z.of_nat (length concepts) - 1) 3) /\
  length out <= Nat.min (length concepts - 1) 3 /\
  (concepts <> [] ->
   (Z.of_nat (length out) <= Z.min (Z.of_nat (length concepts) - 1) 3)%Z) /\
  (length concepts < 2 -> out = []) /\
  (2 <= length concepts -> out <> []) /\
  forall i, i < length out ->
    let c1 := nth i concepts [] in
    let c2 := nth (i + 1) concepts [] in
    i + 1 < length concepts /\
    question (nth i out (mkPair [] [])) = comparison_question c1 c2 /\
    answer (nth i out (mkPair [] []))
    = match find (names_both E c1 c2) (comparison_pool E text) with
      | Some r => strip r
      | None => comparison_fallback c1 c2
      end /\
    str_in c1 (comparison_fallback c1 c2) = true /\
    str_in c2 (comparison_fallback c1 c2) = true.
Proof.
  intros out.
  assert (Hlen : length out = Z.to_nat (Z.min (Z.of_nat (length concepts) - 1) 3)).
  { unfold out. rewrite generate_comparison_questions_map, length_map.
    apply comparison_range_length. }
  split; [exact Hlen|]. split; [lia|]. split; [|split; [|split]].
  - intros H. destruct concepts as [|c cs]; [congruence|]. cbn [length] in *. lia.
  - intros H. apply length_zero_iff_nil. lia.
  - intros H Hnil. rewrite Hnil in Hlen. simpl in Hlen. lia.
  - intros i Hi c1 c2.
    assert (Hin : In i (comparison_range concepts)).
    { unfold comparison_range. apply in_seq. lia. }
    split; [exact (comparison_range_in_bounds concepts i Hin)|].
    assert (Hnth : nth i out (mkPair [] [])
                   = comparison_at E (comparison_pool E text) concepts i).
    { unfold out. rewrite generate_comparison_questions_map.
      rewrite (nth_indep _ _ (comparison_at E (comparison_pool E text) concepts 0)).
      - rewrite map_nth. f_equal. unfold comparison_range.
        rewrite seq_nth by lia. reflexivity.
      - rewrite length_map, comparison_range_length. lia. }
    rewrite Hnth. unfold comparison_at. cbn [question answer].
    fold c1 c2. split; [reflexivity|]. split.
    + rewrite filter_head_find.
      destruct (filter (names_both E c1 c2) (comparison_pool E text)); reflexivity.
    + apply comparison_fallback_names.
Qed.

(** ** Definition generator *)

(** [max(l, key=len)]: an element of greatest length, the first such. *)
Lemma max_by_len_spec (l : list pystr) :
  forall best,
    exists l1 l2,
      best :: l = l1 ++ max_by_len best l :: l2 /\
      (forall x, In x l1 -> length x < length (max_by_len best l)) /\
      (forall x, In x l2 -> length x <= length (max_by_len best l)).
Proof.
  induction l as [|x l IH]; intros best.
  - exists [], []. simpl. repeat split; intros y [].
  - cbn [max_by_len].
    destruct (IH (if length best <? length x then x else best))
      as (l1 & l2 & Heq & Hlt & Hle).
    remember (max_by_len (if length best <? length x then x else best) l) as m eqn:Hm.
    clear Hm IH.
    destruct (Nat.ltb_spec (length best) (length x)) as [Hbx|Hbx];
      destruct l1 as [|y l1]; simpl in Heq; injection Heq as Hy Hl; subst.
    + exists [best], l2. repeat split; [|exact Hle].
      intros y [<-|[]]. exact Hbx.
    + exists (best :: y :: l1), l2. repeat split; [|exact Hle].
      intros z [<-|Hz]; [|apply Hlt, Hz].
      specialize (Hlt y (or_introl eq_refl)). lia.
    + exists [], (x :: l2). repeat split; [intros y [] |].
      intros y [<-|Hy]; [exact Hbx | apply Hle, Hy].
    + exists (y :: x :: l1), l2. repeat split; [|exact Hle].
      intros z [<-|[<-|Hz]].
      * apply Hlt. left. reflexivity.
      * specialize (Hlt y (or_introl eq_refl)). lia.
      * apply Hlt. right. exact Hz.
Qed.

Section DefinitionFacts.

Variable E : Env.

Lemma definition_sentences_filter (concept : pystr) (sents : list pystr) :
  definition_sentences E concept sents = map strip (filter (defines E concept) sents).
Proof.
  unfold definition_sentences.
  apply (fold_left_append_if (defines E concept) strip sents []).
Qed.

Lemma generate_definition_questions_flat_map (concepts : list pystr) (text : pystr) :
  generate_definition_questions E concepts text
  = flat_map (definition_for E (sent_tokenize E text)) concepts.
Proof.
  unfold generate_definition_questions.
  apply (fold_left_extend (definition_for E (sent_tokenize E text)) concepts []).
Qed.

Lemma what_is_injective (c c' : pystr) :
  lit "What is " ++ c ++ lit "?" = lit "What is " ++ c' ++ lit "?" -> c = c'.
Proof. intros H. apply app_inv_head in H. apply app_inv_tail in H. exact H. Qed.

(** What one concept contributes. *)
Lemma definition_for_cases (sents : list pystr) (concept : pystr) :
  (filter (defines E concept) sents = [] /\ definition_for E sents concept = []) \/
  (exists a l1 l2,
      definition_for E sents concept = [mkPair (lit "What is " ++ concept ++ lit "?") a] /\
      map strip (filter (defines E concept) sents) = l1 ++ a :: l2 /\
      (forall x, In x l1 -> length x < length a) /\
      (forall x, In x l2 -> length x <= length a)).
Proof.
  unfold definition_for. rewrite definition_sentences_filter.
  destruct (filter (defines E concept) sents) as [|s ss] eqn:Hf.
  - left. split; reflexivity.
  - right. cbn [map].
    destruct (max_by_len_spec (map strip ss) (strip s)) as (l1 & l2 & Heq & Hlt & Hle).
    exists (max_by_len (strip s) (map strip ss)), l1, l2. repeat split; assumption.
Qed.

End DefinitionFacts.

(** C6.  Every pair of the definition generator asks "What is {concept}?"
    for one of the concepts and answers with the trimmed form of a sentence
    whose lowercased text contains the lowercased concept and an indicator
    phrase; among the trimmed qualifying sentences of that concept the
    answer is the first of greatest length.  A concept without a qualifying
    sentence gets no pair, a concept with one gets a pair. *)
Theorem generate_definition_questions_spec (E : Env) (concepts : list pystr) (text : pystr) :
  let sents := sent_tokenize E text in
  let out := generate_definition_questions E concepts text in
  (forall p, In p out ->
     exists c,
       In c concepts /\
       question p = lit "What is " ++ c ++ lit "?" /\
       (exists sent, In sent sents /\ defines E c sent = true /\ answer p = strip sent) /\
       (exists l1 l2,
           map strip (filter (defines E c) sents) = l1 ++ answer p :: l2 /\
           (forall x, In x l1 -> length x < length (answer p)) /\
           (forall x, In x l2 -> length x <= length (answer p)))) /\
  (forall c, In c concepts ->
     (forall sent, In sent sents -> defines E c sent = false) ->
     forall p, In p out -> question p <> lit "What is " ++ c ++ lit "?") /\
  (forall c, In c concepts ->
     (exists sent, In sent sents /\ defines E c sent = true) ->
     exists p, In p out /\ question p = lit "What is " ++ c ++ lit "?") /\
  (forall c sent,
     defines E c sent = true <->
     str_in (lower E c) (lower E sent) = true /\
     exists ind, In ind definition_indicators /\ str_in ind (lower E sent) = true).
Proof.
  intros sents out.
  assert (Hout : forall p, In p out <->
                   exists c, In c concepts /\ In p (definition_for E sents c)).
  { intros p. unfold out. rewrite generate_definition_questions_flat_map.
    rewrite in_flat_map. reflexivity. }
  split; [|split; [|split]].
  - intros p Hp. apply Hout in Hp. destruct Hp as (c & Hc & Hp).
    exists c. split; [exact Hc|].
    destruct (definition_for_cases E sents c)
      as [[_ Hnil]|(a & l1 & l2 & Hdef & Heq & Hlt & Hle)].
    + rewrite Hnil in Hp. destruct Hp.
    + rewrite Hdef in Hp. destruct Hp as [<-|[]]. cbn [question answer].
      split; [reflexivity|]. split.
      * assert (Ha : In a (map strip (filter (defines E c) sents)))
          by (rewrite Heq; apply in_elt).
        apply in_map_iff in Ha. destruct Ha as (sent & Hs & Hin).
        apply filter_In in Hin. destruct Hin as [Hin Hd].
        exists sent. repeat split; [exact Hin | exact Hd | symmetry; exact Hs].
      * exists l1, l2. repeat split; assumption.
  - intros c Hc Hnone p Hp Hq. apply Hout in Hp. destruct Hp as (c' & Hc' & Hp).
    destruct (definition_for_cases E sents c')
      as [[_ Hnil]|(a & l1 & l2 & Hdef & Heq & _)].
    + rewrite Hnil in Hp. destruct Hp.
    + rewrite Hdef in Hp. destruct Hp as [<-|[]]. cbn [question] in Hq.
      apply what_is_injective in Hq. subst c'.
      assert (Ha : In a (map strip (filter (defines E c) sents)))
        by (rewrite Heq; apply in_elt).
      apply in_map_iff in Ha. destruct Ha as (sent & _ & Hin).
      apply filter_In in Hin. destruct Hin as [Hin Hd].
      rewrite (Hnone sent Hin) in Hd. discriminate.
  - intros c Hc (sent & Hin & Hd).
    destruct (definition_for_cases E sents c)
      as [[Hnil _]|(a & l1 & l2 & Hdef & _)].
    + assert (Hf : In sent (filter (defines E c) sents))
        by (apply filter_In; split; assumption).
      rewrite Hnil in Hf. destruct Hf.
    + exists (mkPair (lit "What is " ++ c ++ lit "?") a). split; [|reflexivity].
      apply Hout. exists c. split; [exact Hc|]. rewrite Hdef. left. reflexivity.
  - intros c sent. unfold defines. rewrite andb_true_iff, any_in_spec. reflexivity.
Qed.

(** ** Sorted lists *)

Lemma StronglySorted_weaken {A : Type} (R1 R2 : A -> A -> Prop) (l : list A) :
  (forall a b, In a l -> In b l -> R1 a b -> R2 a b) ->
  StronglySorted R1 l -> StronglySorted R2 l.
Proof.
  intros H Hs. induction Hs as [|a l Hs IH Hall]; constructor.
  - apply IH. intros x y Hx Hy. apply H; right; assumption.
  - rewrite Forall_forall in *. intros b Hb.
    apply H; [left; reflexivity | right; exact Hb | apply Hall, Hb].
Qed.

Lemma StronglySorted_snoc {A : Type} (R : A -> A -> Prop) (l : list A) (x : A) :
  StronglySorted R l -> Forall (fun a => R a x) l -> StronglySorted R (l ++ [x]).
Proof.
  intros Hs Hall. induction Hs as [|a l Hs IH Ha]; simpl.
  - repeat constructor.
  - inversion Hall as [|? ? Hax Hall']; subst. constructor; [apply IH, Hall'|].
    apply Forall_app. split; [exact Ha | repeat constructor; exact Hax].
Qed.

Lemma StronglySorted_map {A B : Type} (f : A -> B) (R : B -> B -> Prop) (l : list A) :
  StronglySorted (fun a b => R (f a) (f b)) l <-> StronglySorted R (map f l).
Proof.
  induction l as [|a l IH]; simpl; split; intros H; try constructor;
    inversion H as [|? ? Hs Hall]; subst.
  - apply IH, Hs.
  - rewrite Forall_map. exact Hall.
  - apply IH, Hs.
  - rewrite Forall_map in Hall. exact Hall.
Qed.

Lemma StronglySorted_app_cross {A : Type} (R : A -> A -> Prop) (l1 l2 : list A) :
  StronglySorted R (l1 ++ l2) -> forall a b, In a l1 -> In b l2 -> R a b.
Proof.
  induction l1 as [|x l1 IH]; simpl; intros Hs a b Ha Hb; [destruct Ha|].
  inversion Hs as [|? ? Hs' Hall]; subst. destruct Ha as [<-|Ha].
  - rewrite Forall_forall in Hall. apply Hall, in_or_app. right. exact Hb.
  - exact (IH Hs' a b Ha Hb).
Qed.

Lemma StronglySorted_app_l {A : Type} (R : A -> A -> Prop) (l1 l2 : list A) :
  StronglySorted R (l1 ++ l2) -> StronglySorted R l1.
Proof.
  induction l1 as [|x l1 IH]; simpl; intros Hs; [constructor|].
  inversion Hs as [|? ? Hs' Hall]; subst. constructor; [exact (IH Hs')|].
  apply Forall_app in Hall. apply Hall.
Qed.

Lemma StronglySorted_NoDup {A : Type} (R : A -> A -> Prop) (l : list A) :
  (forall a, ~ R a a) -> StronglySorted R l -> NoDup l.
Proof.
  intros Hirr Hs. induction Hs as [|a l Hs IH Hall]; constructor; [|exact IH].
  intros Hin. rewrite Forall_forall in Hall. exact (Hirr a (Hall a Hin)).
Qed.

(** ** Stable sort by descending count *)

Lemma insert_desc_In (x y : pystr * nat) (l : list (pystr * nat)) :
  In y (insert_desc x l) <-> y = x \/ In y l.
Proof.
  induction l as [|z l IH]; simpl.
  - split; intros [H|H]; auto.
  - destruct (snd z <=? snd x); simpl; [split; intros [H|H]; auto|].
    rewrite IH. tauto.
Qed.

Lemma sorted_desc_In (y : pystr * nat) (l : list (pystr * nat)) :
  In y (sorted_desc l) <-> In y l.
Proof.
  induction l as [|x l IH]; simpl; [reflexivity|].
  rewrite insert_desc_In, IH. split; intros [H|H]; auto.
Qed.

Section SortFacts.

(** [T] is the order in which the items are handed to the sort. *)
Variable T : pystr * nat -> pystr * nat -> Prop.

Lemma insert_desc_sorted (x : pystr * nat) (l : list (pystr * nat)) :
  StronglySorted (sorted_rel T) l -> Forall (T x) l ->
  StronglySorted (sorted_rel T) (insert_desc x l).
Proof.
  intros Hs. induction Hs as [|y l Hs IH Hy]; intros HT; simpl.
  - repeat constructor.
  - inversion HT as [|? ? HTy HTl]; subst.
    destruct (Nat.leb_spec (snd y) (snd x)) as [Hle|Hgt].
    + constructor; [constructor; assumption|].
      rewrite Forall_forall in *. intros z [<-|Hz].
      * unfold sorted_rel. destruct (Nat.eq_dec (snd x) (snd y)); [right|left]; [|lia].
        split; [assumption|exact HTy].
      * assert (Hzy : snd z <= snd y).
        { specialize (Hy z Hz). unfold sorted_rel in Hy. lia. }
        unfold sorted_rel.
        destruct (Nat.eq_dec (snd x) (snd z)); [right|left]; [|lia].
        split; [assumption | apply HTl, Hz].
    + constructor; [apply IH, HTl|].
      rewrite Forall_forall in *. intros z Hz. apply insert_desc_In in Hz.
      destruct Hz as [->|Hz]; [left; exact Hgt | apply Hy, Hz].
Qed.

Lemma sorted_desc_sorted (l : list (pystr * nat)) :
  StronglySorted T l -> StronglySorted (sorted_rel T) (sorted_desc l).
Proof.
  intros Hs. induction Hs as [|x l Hs IH Hx]; simpl; [constructor|].
  apply insert_desc_sorted; [exact IH|].
  rewrite Forall_forall in *. intros y Hy. apply Hx, sorted_desc_In, Hy.
Qed.

End SortFacts.

(** ** Counter *)

Lemma str_eqb_sym (a b : pystr) : str_eqb a b = str_eqb b a.
Proof.
  apply eq_true_iff_eq. rewrite !str_eqb_eq. split; intros H; symmetry; exact H.
Qed.

Lemma occurrences_snoc (w x : pystr) (l : list pystr) :
  occurrences w (l ++ [x]) = occurrences w l + (if str_eqb w x then 1 else 0).
Proof.
  unfold occurrences. rewrite filter_app, length_app. simpl.
  destruct (str_eqb w x); reflexivity.
Qed.

Lemma occurrences_pos (w : pystr) (l : list pystr) :
  0 < occurrences w l <-> In w l.
Proof.
  unfold occurrences. induction l as [|x l IH]; simpl; [split; [lia | intros []]|].
  destruct (str_eqb w x) eqn:Hx; simpl.
  - apply str_eqb_eq in Hx. split; [intros _; left; symmetry; exact Hx | lia].
  - apply str_eqb_neq in Hx. rewrite IH. split; [tauto|].
    intros [H|H]; [congruence | exact H].
Qed.

Lemma first_index_lt (w : pystr) (l : list pystr) :
  In w l -> first_index w l < length l.
Proof.
  induction l as [|x l IH]; simpl; [intros []|]. intros H.
  destruct (str_eqb x w) eqn:Hx; [lia|]. apply str_eqb_neq in Hx.
  destruct H as [H|H]; [congruence|]. specialize (IH H). lia.
Qed.

Lemma first_index_snoc_old (w x : pystr) (l : list pystr) :
  In w l -> first_index w (l ++ [x]) = first_index w l.
Proof.
  induction l as [|y l IH]; simpl; [intros []|]. intros H.
  destruct (str_eqb y w) eqn:Hy; [reflexivity|]. apply str_eqb_neq in Hy.
  destruct H as [H|H]; [congruence|]. rewrite (IH H). reflexivity.
Qed.

Lemma first_index_snoc_new (x : pystr) (l : list pystr) :
  ~ In x l -> first_index x (l ++ [x]) = length l.
Proof.
  induction l as [|y l IH]; simpl; intros H.
  - rewrite str_eqb_refl. reflexivity.
  - destruct (str_eqb y x) eqn:Hy.
    + apply str_eqb_eq in Hy. exfalso. apply H. left. exact Hy.
    + rewrite IH; [reflexivity|]. intros Hin. apply H. right. exact Hin.
Qed.

Lemma counter_add_keys (x : pystr) (cnt : list (pystr * nat)) :
  map fst (counter_add x cnt)
  = if in_set x (map fst cnt) then map fst cnt else map fst cnt ++ [x].
Proof.
  induction cnt as [|[k n] cnt IH]; simpl; [reflexivity|].
  rewrite (str_eqb_sym x k). destruct (str_eqb k x); simpl; [reflexivity|].
  rewrite IH. destruct (in_set x (map fst cnt)); reflexivity.
Qed.

Lemma count_of_counter_add (w x : pystr) (cnt : list (pystr * nat)) :
  count_of w (counter_add x cnt)
  = count_of w cnt + (if str_eqb w x then 1 else 0).
Proof.
  unfold count_of. induction cnt as [|[k n] cnt IH]; simpl.
  - rewrite (str_eqb_sym x w). destruct (str_eqb w x); reflexivity.
  - destruct (str_eqb k x) eqn:Hkx; simpl.
    + apply str_eqb_eq in Hkx. subst k.
      rewrite (str_eqb_sym x w). destruct (str_eqb w x); simpl; lia.
    + destruct (str_eqb k w) eqn:Hkw; simpl; [|exact IH].
      apply str_eqb_eq in Hkw. subst k. rewrite Hkx. lia.
Qed.

Lemma count_of_unique (w : pystr) (n : nat) (cnt : list (pystr * nat)) :
  NoDup (map fst cnt) -> In (w, n) cnt -> count_of w cnt = n.
Proof.
  unfold count_of. induction cnt as [|[k m] cnt IH]; simpl; [intros _ []|].
  intros Hnd Hin. inversion Hnd as [|? ? Hk Hnd']; subst.
  destruct Hin as [Heq|Hin].
  - injection Heq as -> ->. rewrite str_eqb_refl. reflexivity.
  - destruct (str_eqb k w) eqn:Hkw; [|exact (IH Hnd' Hin)].
    apply str_eqb_eq in Hkw. subst k. exfalso. apply Hk.
    apply in_map_iff. exists (w, n). split; [reflexivity | exact Hin].
Qed.

Lemma Counter_snoc (l : list pystr) (x : pystr) :
  Counter (l ++ [x]) = counter_add x (Counter l).
Proof. unfold Counter. rewrite fold_left_app. reflexivity. Qed.

Lemma Counter_count (w : pystr) (l : list pystr) :
  count_of w (Counter l) = occurrences w l.
Proof.
  induction l as [|x l IH] using rev_ind; [reflexivity|].
  rewrite Counter_snoc, count_of_counter_add, occurrences_snoc, IH. reflexivity.
Qed.

Lemma Counter_keys_In (w : pystr) (l : list pystr) :
  In w (map fst (Counter l)) <-> In w l.
Proof.
  induction l as [|x l IH] using rev_ind; [reflexivity|].
  rewrite Counter_snoc, counter_add_keys, in_app_iff. simpl.
  destruct (in_set x (map fst (Counter l))) eqn:Hx.
  - apply in_set_In in Hx. rewrite IH. split; [tauto|].
    intros [H|[<-|[]]]; [exact H | exact (proj1 IH Hx)].
  - rewrite in_app_iff, IH. reflexivity.
Qed.

(** The keys stand in the order in which the words were first met. *)
Lemma Counter_keys_sorted (l : list pystr) :
  StronglySorted (fun a b => first_index a l < first_index b l) (map fst (Counter l)).
Proof.
  induction l as [|x l IH] using rev_ind; [constructor|].
  rewrite Counter_snoc, counter_add_keys.
  assert (Hold : StronglySorted
                   (fun a b => first_index a (l ++ [x]) < first_index b (l ++ [x]))
                   (map fst (Counter l))).
  { refine (StronglySorted_weaken _ _ _ _ IH). intros a b Ha Hb H.
    apply (proj1 (Counter_keys_In _ _)) in Ha.
    apply (proj1 (Counter_keys_In _ _)) in Hb. cbv beta in *.
    rewrite (first_index_snoc_old _ _ _ Ha), (first_index_snoc_old _ _ _ Hb).
    exact H. }
  destruct (in_set x (map fst (Counter l))) eqn:Hx; [exact Hold|].
  apply StronglySorted_snoc; [exact Hold|].
  apply Forall_forall. intros a Ha. apply (proj1 (Counter_keys_In _ _)) in Ha.
  rewrite (first_index_snoc_old _ _ _ Ha), first_index_snoc_new.
  - apply first_index_lt, Ha.
  - intros Hin. apply (proj2 (Counter_keys_In _ _)) in Hin.
    apply in_set_In in Hin. congruence.
Qed.

Lemma Counter_keys_NoDup (l : list pystr) : NoDup (map fst (Counter l)).
Proof.
  apply (StronglySorted_NoDup (fun a b => first_index a l < first_index b l)).
  - intros a. apply Nat.lt_irrefl.
  - apply Counter_keys_sorted.
Qed.

Lemma Counter_pairs (l : list pystr) (w : pystr) (n : nat) :
  In (w, n) (Counter l) -> n = occurrences w l /\ In w l.
Proof.
  intros H. split.
  - rewrite <- Counter_count. symmetry.
    apply count_of_unique; [apply Counter_keys_NoDup | exact H].
  - apply (proj1 (Counter_keys_In w l)), in_map_iff.
    exists (w, n). split; [reflexivity | exact H].
Qed.

(** ** Concept extractor *)

Section ConceptFacts.

Variable E : Env.

Lemma important_words_In (text w : pystr) :
  In w (important_words E text) <->
  exists tag, In (w, tag) (pos_tag E (word_tokenize E (lower E text))) /\
              important_token E (w, tag) = true.
Proof.
  unfold important_words. rewrite in_map_iff. split.
  - intros ([w' tag] & Hw & Hin). simpl in Hw. subst w'.
    apply filter_In in Hin. exists tag. exact Hin.
  - intros (tag & Hin & Htok). exists (w, tag). split; [reflexivity|].
    apply filter_In. split; assumption.
Qed.

(** The whole ranking, before [most_common] cuts it to [top_n] items. *)
Lemma ranking_sorted (l : list pystr) :
  StronglySorted (ranks_before l) (map fst (sorted_desc (Counter l))).
Proof.
  apply (proj1 (StronglySorted_map fst (ranks_before l) _)).
  apply (StronglySorted_weaken
           (sorted_rel (fun a b => first_index (fst a) l < first_index (fst b) l))).
  - intros [a n] [b m] Ha Hb H.
    apply sorted_desc_In, Counter_pairs in Ha. apply sorted_desc_In, Counter_pairs in Hb.
    destruct Ha as [-> _], Hb as [-> _]. exact H.
  - apply sorted_desc_sorted.
    apply (proj2 (StronglySorted_map fst (fun a b => first_index a l < first_index b l) _)).
    apply Counter_keys_sorted.
Qed.

Lemma ranking_In (l : list pystr) (w : pystr) :
  In w (map fst (sorted_desc (Counter l))) <-> In w l.
Proof.
  rewrite <- (Counter_keys_In w l). rewrite !in_map_iff.
  split; intros (p & Hp & Hin); exists p; (split; [exact Hp|]).
  - exact (proj1 (sorted_desc_In p (Counter l)) Hin).
  - exact (proj2 (sorted_desc_In p (Counter l)) Hin).
Qed.

Lemma extract_key_concepts_prefix (text : pystr) (top_n : Z) :
  map fst (sorted_desc (Counter (important_words E text)))
  = extract_key_concepts E text top_n
    ++ skipn (Z.to_nat top_n) (map fst (sorted_desc (Counter (important_words E text)))).
Proof.
  unfold extract_key_concepts, most_common.
  rewrite <- firstn_map. symmetry. apply firstn_skipn.
Qed.

End ConceptFacts.

Lemma insert_desc_length (x : pystr * nat) (l : list (pystr * nat)) :
  length (insert_desc x l) = S (length l).
Proof.
  induction l as [|y l IH]; simpl; [reflexivity|].
  destruct (snd y <=? snd x); simpl; [reflexivity | rewrite IH; reflexivity].
Qed.

Lemma sorted_desc_length (l : list (pystr * nat)) :
  length (sorted_desc l) = length l.
Proof.
  induction l as [|x l IH]; simpl; [reflexivity|].
  rewrite insert_desc_length, IH. reflexivity.
Qed.

Lemma distinct_In (l : list pystr) (w : pystr) : In w (distinct l) <-> In w l.
Proof. apply nodup_In. Qed.

(** [Counter] holds one entry for each different word. *)
Lemma Counter_length (l : list pystr) : length (Counter l) = length (distinct l).
Proof.
  rewrite <- (length_map fst (Counter l)). apply Nat.le_antisymm.
  - apply NoDup_incl_length; [apply Counter_keys_NoDup|].
    intros w Hw. apply distinct_In, (proj1 (Counter_keys_In w l)), Hw.
  - apply NoDup_incl_length; [apply NoDup_nodup|].
    intros w Hw. apply (proj2 (Counter_keys_In w l)), distinct_In, Hw.
Qed.

Lemma ranking_length (l : list pystr) :
  length (map fst (sorted_desc (Counter l))) = length (distinct l).
Proof. rewrite length_map, sorted_desc_length. apply Counter_length. Qed.

(** C9.  A token of the tagged lowercased text is kept exactly when its tag
    starts with NN, JJ or VB and its word is no stop word, longer than two
    characters and alphabetic throughout; every concept the extractor
    returns is the word of such a token.  The list holds the smaller of
    [top_n] (none when that is negative) and the number of different kept
    words, so at most [top_n]; it holds every kept word when it is shorter
    than [top_n]; it holds no word twice and is in ranking order: more
    frequent words first, equally frequent ones in the order in which they
    were first met; and every kept word left out ranks behind every word
    returned. *)
Theorem extract_key_concepts_spec (E : Env) (text : pystr) (top_n : Z) :
  let words := important_words E text in
  let out := extract_key_concepts E text top_n in
  (forall w, In w out ->
     exists tag,
       In (w, tag) (pos_tag E (word_tokenize E (lower E text))) /\
       (exists pre, In pre [lit "NN"; lit "JJ"; lit "VB"] /\ prefixb pre tag = true) /\
       ~ In w (stop_words E) /\
       2 < length w /\
       isalpha E w = true) /\
  length out <= Z.to_nat top_n /\
  ((0 <= top_n)%Z -> (Z.of_nat (length out) <= top_n)%Z) /\
  NoDup out /\
  StronglySorted (ranks_before words) out /\
  (forall v w, In v out -> In w words -> ~ In w out -> ranks_before words v w) /\
  (forall w, In w words <->
     exists tag,
       In (w, tag) (pos_tag E (word_tokenize E (lower E text))) /\
       (exists pre, In pre [lit "NN"; lit "JJ"; lit "VB"] /\ prefixb pre tag = true) /\
       ~ In w (stop_words E) /\
       2 < length w /\
       isalpha E w = true) /\
  length out = Nat.min (Z.to_nat top_n) (length (distinct words)) /\
  (forall w, In w out -> In w words) /\
  (length out < Z.to_nat top_n -> forall w, In w words -> In w out) /\
  (forall w, In w words -> ~ In w out -> length out = Z.to_nat top_n).
Proof.
  intros words out.
  pose proof (ranking_sorted words) as Hsorted.
  pose proof (extract_key_concepts_prefix E text top_n) as Hsplit.
  fold words out in Hsplit. rewrite Hsplit in Hsorted.
  assert (Hout : StronglySorted (ranks_before words) out)
    by exact (StronglySorted_app_l _ _ _ Hsorted).
  assert (Hlen : length out <= Z.to_nat top_n).
  { unfold out, extract_key_concepts, most_common.
    rewrite length_map. apply firstn_le_length. }
  assert (Hkept : forall w, In w words <->
     exists tag,
       In (w, tag) (pos_tag E (word_tokenize E (lower E text))) /\
       (exists pre, In pre [lit "NN"; lit "JJ"; lit "VB"] /\ prefixb pre tag = true) /\
       ~ In w (stop_words E) /\
       2 < length w /\
       isalpha E w = true).
  { intros w. unfold words. rewrite important_words_In.
    split; intros (tag & Hin & Htok); exists tag; (split; [exact Hin|]).
    - unfold important_token in Htok. cbn [fst snd] in Htok.
      rewrite !andb_true_iff, negb_true_iff, Nat.ltb_lt in Htok.
      destruct Htok as [[[Htag Hstop] Hlong] Halpha].
      repeat split; try assumption.
      + unfold concept_tag in Htag. apply existsb_exists in Htag. exact Htag.
      + intros Hs. apply in_set_In in Hs. congruence.
    - destruct Htok as (Htag & Hstop & Hlong & Halpha).
      unfold important_token. cbn [fst snd].
      rewrite !andb_true_iff, negb_true_iff, Nat.ltb_lt.
      repeat split; try assumption.
      + unfold concept_tag. apply existsb_exists. exact Htag.
      + destruct (in_set w (stop_words E)) eqn:Hs; [|reflexivity].
        apply in_set_In in Hs. contradiction. }
  assert (Hsub : forall w, In w out -> In w words).
  { intros w Hw. apply ranking_In. fold words. rewrite Hsplit.
    apply in_or_app. left. exact Hw. }
  assert (Hexact : length out = Nat.min (Z.to_nat top_n) (length (distinct words))).
  { unfold out, extract_key_concepts, most_common.
    rewrite length_map, length_firstn, sorted_desc_length, Counter_length.
    reflexivity. }
  assert (Hall : length out < Z.to_nat top_n -> forall w, In w words -> In w out).
  { intros Hshort w Hw. rewrite Hexact in Hshort.
    unfold out, extract_key_concepts, most_common.
    fold words.
    rewrite firstn_all2 by (rewrite sorted_desc_length, Counter_length; lia).
    apply ranking_In, Hw. }
  split; [|split; [|split; [|split; [|split; [|split; [|split; [|split; [|split; [|split]]]]]]]]].
  - intros w Hw. apply Hkept, Hsub, Hw.
  - exact Hlen.
  - intros Hn. lia.
  - apply (StronglySorted_NoDup (ranks_before words)); [|exact Hout].
    intros a [H|[_ H]]; lia.
  - exact Hout.
  - intros v w Hv Hw Hnot.
    apply (StronglySorted_app_cross _ _ _ Hsorted v w Hv).
    apply ranking_In in Hw. fold words in Hw. rewrite Hsplit in Hw.
    apply in_app_or in Hw. destruct Hw as [Hw|Hw]; [contradiction | exact Hw].
  - exact Hkept.
  - exact Hexact.
  - exact Hsub.
  - exact Hall.
  - intros w Hw Hnot.
    destruct (Nat.eq_dec (length out) (Z.to_nat top_n)) as [Heq|Hne]; [exact Heq|].
    exfalso. apply Hnot, Hall; [lia | exact Hw].
Qed.

(** ** Question keys *)

Lemma drop_while_snoc_kept (p : N -> bool) (l : pystr) (c : N) :
  p c = false -> drop_while p (l ++ [c]) = drop_while p l ++ [c].
Proof.
  intros Hc. induction l as [|x l IH]; simpl; [rewrite Hc; reflexivity|].
  destruct (p x); [exact IH | reflexivity].
Qed.

Lemma rstrip_cons (c : N) (s : pystr) :
  is_space c = false -> rstrip (c :: s) = c :: rstrip s.
Proof.
  intros Hc. unfold rstrip. simpl.
  rewrite (drop_while_snoc_kept _ _ _ Hc), rev_app_distr. reflexivity.
Qed.

Lemma strip_cons (c : N) (s : pystr) :
  is_space c = false -> strip (c :: s) = c :: rstrip s.
Proof.
  intros Hc. unfold strip. cbn [drop_while]. rewrite Hc.
  exact (rstrip_cons c s Hc).
Qed.

Section KeyFacts.

Variable E : Env.

Lemma lower_from_ascii (before : pystr) (c : N) (s : pystr) :
  (c <? 128)%N = true ->
  lower_from E before (c :: s) = to_lower_ascii c :: lower_from E (before ++ [c]) s.
Proof. intros H. cbn [lower_from]. rewrite H. reflexivity. Qed.

Lemma why_key : question_key E (mkPair why_question []) = lower E why_question.
Proof. vm_compute. reflexivity. Qed.

Lemma why_key_head :
  exists t, lower E why_question = 119%N :: 104%N :: 121%N :: t.
Proof. eexists. vm_compute. reflexivity. Qed.

Lemma what_key_head (c : pystr) :
  exists t, strip (lower E (lit "What is " ++ c ++ lit "?"))
            = 119%N :: 104%N :: 97%N :: t.
Proof.
  unfold lower. change (lit "What is ") with (87 :: 104 :: 97 :: lit "t is ")%N.
  cbn [app]. rewrite !lower_from_ascii by reflexivity.
  change (to_lower_ascii 87) with 119%N. change (to_lower_ascii 104) with 104%N.
  change (to_lower_ascii 97) with 97%N.
  rewrite strip_cons by reflexivity. rewrite !rstrip_cons by reflexivity.
  eexists. reflexivity.
Qed.

Lemma how_key_head (v : pystr) :
  exists t, strip (lower E (lit "How do you " ++ v ++ lit " in this context?"))
            = 104%N :: t.
Proof.
  unfold lower. change (lit "How do you ") with (72 :: lit "ow do you ")%N.
  cbn [app]. rewrite lower_from_ascii by reflexivity.
  change (to_lower_ascii 72) with 104%N.
  rewrite strip_cons by reflexivity. eexists. reflexivity.
Qed.

Lemma generate_how_questions_In (text : pystr) (p : FAQPair) :
  In p (generate_how_questions E text) ->
  exists v, question p = lit "How do you " ++ v ++ lit " in this context?".
Proof.
  unfold generate_how_questions. rewrite fold_left_extend. cbn [app].
  rewrite in_flat_map. intros (sentence & _ & Hp). unfold how_for in Hp.
  destruct (map fst _) as [|v vs]; [destruct Hp|].
  destruct Hp as [<-|[]]. exists v. reflexivity.
Qed.

Lemma generate_definition_questions_In (concepts : list pystr) (text : pystr) (p : FAQPair) :
  In p (generate_definition_questions E concepts text) ->
  exists c, question p = lit "What is " ++ c ++ lit "?".
Proof.
  rewrite generate_definition_questions_flat_map, in_flat_map.
  intros (c & _ & Hp). exists c.
  destruct (definition_for_cases E (sent_tokenize E text) c)
    as [[_ Hnil]|(a & _ & _ & Hdef & _)]; rewrite ?Hnil, ?Hdef in Hp.
  - destruct Hp.
  - destruct Hp as [<-|[]]. reflexivity.
Qed.

Lemma generate_why_questions_In (text : pystr) (p : FAQPair) :
  In p (generate_why_questions E text) -> question p = why_question.
Proof.
  unfold generate_why_questions.
  rewrite (fold_left_append_if (gives_reason E)
             (fun sent => mkPair why_question (strip sent))).
  cbn [app]. intros H. apply firstn_incl in H. apply in_map_iff in H.
  destruct H as (sent & <- & _). reflexivity.
Qed.

End KeyFacts.

(** ** The why pair of a processed document *)

Section WhyPairFacts.

Variable E : Env.

Lemma remove_duplicate_questions_incl (faqs : list FAQPair) (p : FAQPair) :
  In p (remove_duplicate_questions E faqs) -> In p faqs.
Proof.
  rewrite remove_duplicate_questions_positions, in_map_iff.
  intros (i & <- & Hi). unfold first_occurrence_indices in Hi.
  apply filter_In in Hi. destruct Hi as [Hi _]. apply in_seq in Hi.
  apply nth_In. lia.
Qed.

Lemma process_document_faq_pairs (self : State) (input_str : pystr) :
  snd (process_document E self input_str) = true ->
  faq_pairs (fst (process_document E self input_str))
  = remove_duplicate_questions E (generated_pairs E input_str).
Proof.
  unfold process_document, generated_pairs, processed_text.
  cbn [set_raw_text raw_text].
  destruct (acquire E input_str); [discriminate | reflexivity].
Qed.

Lemma what_is_not_why (c rest : pystr) : lit "What is " ++ c ++ rest <> why_question.
Proof.
  intros H. apply (f_equal (firstn 3)) in H. vm_compute in H. discriminate.
Qed.

Lemma how_is_not_why (v rest : pystr) : lit "How do you " ++ v ++ rest <> why_question.
Proof.
  intros H. apply (f_equal (firstn 1)) in H. vm_compute in H. discriminate.
Qed.

Lemma comparison_is_not_why (c1 c2 : pystr) : comparison_question c1 c2 <> why_question.
Proof.
  intros H. apply (f_equal (firstn 3)) in H. vm_compute in H. discriminate.
Qed.

Lemma generate_comparison_questions_In (text : pystr) (concepts : list pystr) (p : FAQPair) :
  In p (generate_comparison_questions E text concepts) ->
  exists c1 c2, question p = comparison_question c1 c2.
Proof.
  rewrite generate_comparison_questions_map, in_map_iff.
  intros (i & <- & _). unfold comparison_at. cbn [question]. eauto.
Qed.

(** The pairs generated before the why pairs have other keys. *)
Lemma earlier_key_differs (concepts : list pystr) (text : pystr) (p w : FAQPair) :
  In p (generate_definition_questions E concepts text ++ generate_how_questions E text) ->
  question w = why_question ->
  question_key E p <> question_key E w.
Proof.
  intros Hp Hw. unfold question_key. rewrite Hw.
  destruct (why_key_head E) as [t Ht].
  assert (Hwhy : strip (lower E why_question) = 119%N :: 104%N :: 121%N :: rstrip t).
  { rewrite Ht, strip_cons by reflexivity. rewrite !rstrip_cons by reflexivity.
    reflexivity. }
  rewrite Hwhy. apply in_app_or in Hp. destruct Hp as [Hp|Hp].
  - apply generate_definition_questions_In in Hp. destruct Hp as [c ->].
    destruct (what_key_head E c) as [t' ->]. discriminate.
  - apply generate_how_questions_In in Hp. destruct Hp as [v ->].
    destruct (how_key_head E v) as [t' ->]. discriminate.
Qed.

Lemma single_why_pair (faqs : list FAQPair) (w : FAQPair) :
  NoDup (map (question_key E) faqs) -> In w faqs -> question w = why_question ->
  why_pairs faqs = [w].
Proof.
  intros Hnd Hin Hq.
  pose proof (count_question_NoDup E why_question faqs Hnd) as Hcount.
  unfold count_question in Hcount. fold (why_pairs faqs) in Hcount.
  assert (Hw : In w (why_pairs faqs)).
  { apply filter_In. split; [exact Hin|]. apply str_eqb_eq. exact Hq. }
  destruct (why_pairs faqs) as [|a [|b r]]; simpl in *; [tauto | | lia].
  destruct Hw as [->|[]]. reflexivity.
Qed.

(** Of the generated pairs the deduplicator keeps the first why pair and
    no other pair under the why question. *)
Lemma why_pairs_of_generated (input_str : pystr) :
  why_pairs (remove_duplicate_questions E (generated_pairs E input_str))
  = firstn 1 (generate_why_questions E (processed_text E input_str)).
Proof.
  unfold generated_pairs.
  set (text := processed_text E input_str).
  set (concepts := extract_key_concepts E text 15).
  set (defs := generate_definition_questions E concepts text).
  set (hows := generate_how_questions E text).
  set (comps := generate_comparison_questions E text concepts).
  destruct (generate_why_questions E text) as [|w ws] eqn:Hwhys.
  - cbn [firstn app]. unfold why_pairs.
    destruct (filter _ _) as [|p r] eqn:Hf; [reflexivity|]. exfalso.
    assert (Hp : In p (p :: r)) by (left; reflexivity).
    rewrite <- Hf in Hp. apply filter_In in Hp. destruct Hp as [Hp Hq].
    apply str_eqb_eq in Hq. apply remove_duplicate_questions_incl in Hp.
    rewrite app_assoc in Hp. apply in_app_or in Hp. destruct Hp as [Hp|Hp].
    + apply in_app_or in Hp. destruct Hp as [Hp|Hp].
      * apply generate_definition_questions_In in Hp. destruct Hp as [c Hc].
        rewrite Hc in Hq. exact (what_is_not_why _ _ Hq).
      * apply generate_how_questions_In in Hp. destruct Hp as [v Hv].
        rewrite Hv in Hq. exact (how_is_not_why _ _ Hq).
    + apply generate_comparison_questions_In in Hp. destruct Hp as (c1 & c2 & Hc).
      rewrite Hc in Hq. exact (comparison_is_not_why _ _ Hq).
  - cbn [firstn].
    assert (Hq : question w = why_question).
    { apply (generate_why_questions_In E text). rewrite Hwhys. left. reflexivity. }
    apply single_why_pair; [apply remove_duplicate_questions_NoDup | | exact Hq].
    rewrite remove_duplicate_questions_positions. apply in_map_iff.
    exists (length (defs ++ hows)).
    assert (Hall : defs ++ hows ++ (w :: ws) ++ comps
                   = (defs ++ hows) ++ w :: (ws ++ comps)).
    { rewrite <- !app_assoc. reflexivity. }
    assert (Hnth : nth (length (defs ++ hows)) (defs ++ hows ++ (w :: ws) ++ comps)
                       (mkPair [] []) = w).
    { rewrite Hall, app_nth2, Nat.sub_diag by lia. reflexivity. }
    split; [exact Hnth|].
    apply first_occurrence_indices_In.
    + rewrite Hall, !length_app. cbn [length]. lia.
    + intros j Hj. rewrite Hnth. rewrite Hall, app_nth1 by exact Hj.
      apply (earlier_key_differs concepts text); [|exact Hq].
      apply nth_In. exact Hj.
Qed.

End WhyPairFacts.

(** C10.  After a successful [process_document] the FAQ list holds at most
    one pair under the why question, although the why generator may have
    produced up to three: its pairs all carry that one question, and of the
    pairs under it the deduplicator keeps exactly the first why pair. *)
Theorem process_document_single_why_pair (E : Env) (self : State) (input_str : pystr) :
  snd (process_document E self input_str) = true ->
  let final := faq_pairs (fst (process_document E self input_str)) in
  let whys := generate_why_questions E (processed_text E input_str) in
  count_question why_question final <= 1 /\
  length whys <= 3 /\
  Forall (fun p => question p = why_question) whys /\
  why_pairs final = firstn 1 whys.
Proof.
  intros Hok final whys. unfold final.
  rewrite (process_document_faq_pairs E self input_str Hok).
  split; [|split; [|split]].
  - apply (count_question_NoDup E), remove_duplicate_questions_NoDup.
  - unfold whys, generate_why_questions. apply firstn_le_length.
  - apply Forall_forall. intros p Hp.
    exact (generate_why_questions_In E _ p Hp).
  - apply why_pairs_of_generated.
Qed.

Lemma process_document_single_why_pair_witness :
  snd (process_document Stub.env init_state Stub.reasons_text) = true /\
  length (generate_why_questions Stub.env (processed_text Stub.env Stub.reasons_text)) = 3 /\
  count_question why_question
    (faq_pairs (fst (process_document Stub.env init_state Stub.reasons_text))) <= 1 /\
  why_pairs (faq_pairs (fst (process_document Stub.env init_state Stub.reasons_text)))
  = [mkPair why_question (lit "Caches help because disks are slow.")].
Proof.
  split; [reflexivity|]. split; [reflexivity|].
  destruct (process_document_single_why_pair Stub.env init_state Stub.reasons_text eq_refl)
    as (Hcount & _ & _ & Hwhy).
  split; [exact Hcount|]. rewrite Hwhy. reflexivity.
Defined.

(** ** The scenario of the specification on the stand-in collaborators *)

Example cache_scenario_concepts :
  extract_key_concepts Stub.env (preprocess_text Stub.env Stub.cache_text) 15
  = [lit "cache"; lit "fast"; lit "storage"; lit "layer"; lit "caches"; lit "used";
     lit "reduce"; lit "latency"; lit "first"; lit "check"; lit "fall"; lit "disk"].
Proof. vm_compute. reflexivity. Qed.

Example cache_scenario_why :
  generate_why_questions Stub.env (preprocess_text Stub.env Stub.cache_text)
  = [mkPair why_question (lit "Caches are used because they reduce latency.")].
Proof. vm_compute. reflexivity. Qed.

Example cache_scenario_how :
  generate_how_questions Stub.env (preprocess_text Stub.env Stub.cache_text)
  = [mkPair (lit "How do you check in this context?")
            (lit "First, check the cache; then, fall back to disk.")].
Proof. vm_compute. reflexivity. Qed.

Example cache_scenario_statistics :
  get_statistics Stub.env (fst (process_document Stub.env init_state Stub.cache_text))
  = [(lit "total_characters", PInt 126); (lit "total_sentences", PInt 3);
     (lit "total_faqs", PInt 17); (lit "key_concepts_found", PInt 12);
     (lit "key_concepts",
      PStrList [lit "cache"; lit "fast"; lit "storage"; lit "layer"; lit "caches";
                lit "used"; lit "reduce"; lit "latency"; lit "first"; lit "check"]);
     (lit "reading_level", PStr (lit "N/A"));
     (lit "avg_sentence_length", PFloat (23%Z, 3%Z))].
Proof. vm_compute. reflexivity. Qed.

Example page_markers_removed :
  preprocess_text Stub.env (lit "Intro. Page 12 Next page 3. Done")
  = lit "Intro.  Next . Done".
Proof. vm_compute. reflexivity. Qed.

(** * Further properties of the code *)

(** ** Normaliser: the steps that matter *)

(** X1.  Three of the six substitutions never change the result of
    [preprocess_text]: turning CRLF into LF, collapsing newlines and
    removing <digits>/<digits>.  The result is that of collapsing
    whitespace, deleting the unwanted characters and removing the page
    markers, followed by [strip()]; in particular a text with CRLF line
    ends and the same text with LF line ends normalise alike. *)
Theorem preprocess_text_effective_steps (E : Env) (text : pystr) :
  preprocess_text E text
  = strip (re_sub (m_page E) []
             (re_sub (m_plus (stripped_char E)) []
                (re_sub (m_plus is_space) [32%N] text))) /\
  preprocess_text E (re_sub (m_literal [13%N; 10%N]) [10%N] text)
  = preprocess_text E text.
Proof.
  split; [apply preprocess_text_is_core|].
  rewrite !preprocess_text_is_core. unfold preprocess_core.
  rewrite collapse_crlf. reflexivity.
Qed.

(** ** Normaliser: what the result can hold *)

(** X2.  Every character of the result of [preprocess_text] is a word
    character (letter, digit, underscore), the plain space or one of the
    punctuation marks . , ! ? ; : ( ) - ' and the double quote: no other
    symbol, no control character and no slash survives. *)
Theorem preprocess_text_alphabet (E : Env) (text : pystr) :
  Forall (fun c => kept_char E c = true) (preprocess_text E text) /\
  ~ In 47%N (preprocess_text E text) /\
  ~ In 35%N (preprocess_text E text) /\
  ~ In 9%N (preprocess_text E text).
Proof.
  assert (H : Forall (fun c => kept_char E c = true) (preprocess_text E text)).
  { pose proof (preprocess_text_kept E text) as Hk.
    pose proof (preprocess_text_plain E text) as Hp.
    unfold only_plain_spaces in Hp. rewrite Forall_forall in *.
    intros c Hc. specialize (Hk c Hc). specialize (Hp c Hc).
    unfold stripped_char in Hk. apply negb_false_iff in Hk.
    unfold kept_char. destruct (is_space c) eqn:Hsp.
    - rewrite (Hp eq_refl). reflexivity.
    - rewrite orb_false_r in Hk.
      apply orb_true_iff in Hk. destruct Hk as [Hk|Hk]; rewrite Hk.
      + reflexivity.
      + apply orb_true_r. }
  split; [exact H|]. rewrite Forall_forall in H.
  repeat split; intros Hin; specialize (H _ Hin); discriminate.
Qed.

(** X3.  [preprocess_text] never returns a text longer than its input. *)
Theorem preprocess_text_length (E : Env) (text : pystr) :
  length (preprocess_text E text) <= length text.
Proof.
  rewrite preprocess_text_is_core. unfold preprocess_core.
  pose proof (re_sub_length (m_plus is_space) [32%N] text (le_n 1)) as H2.
  pose proof (re_sub_length (m_plus (stripped_char E)) []
                (re_sub (m_plus is_space) [32%N] text) (Nat.le_0_l 1)) as H4.
  pose proof (re_sub_length (m_page E) []
                (re_sub (m_plus (stripped_char E)) []
                   (re_sub (m_plus is_space) [32%N] text)) (Nat.le_0_l 1)) as H5.
  pose proof (strip_length
                (re_sub (m_page E) []
                   (re_sub (m_plus (stripped_char E)) []
                      (re_sub (m_plus is_space) [32%N] text)))) as H7.
  lia.
Qed.

Lemma squeeze_blank (s : pystr) :
  forallb is_space s = true ->
  squeeze true s = [] /\ (squeeze false s = [] \/ squeeze false s = [32%N]).
Proof.
  induction s as [|c s IH]; intros H; [split; [|left]; reflexivity|].
  cbn [forallb] in H. apply andb_true_iff in H. destruct H as [Hc Hs].
  destruct (IH Hs) as [Ht _]. cbn [squeeze]. rewrite Hc, Ht.
  split; [reflexivity | right; reflexivity].
Qed.

(** X4.  Text that consists of whitespace only normalises to the empty
    string. *)
Theorem preprocess_text_blank (E : Env) (text : pystr) :
  forallb is_space text = true -> preprocess_text E text = [].
Proof.
  intros H. rewrite preprocess_text_is_core. unfold preprocess_core, re_sub.
  rewrite (proj1 (collapse_squeeze text)).
  destruct (squeeze_blank text H) as [_ [-> | ->]]; reflexivity.
Qed.

Lemma preprocess_text_blank_witness :
  forallb is_space [32%N; 9%N; 13%N; 10%N; 160%N] = true /\
  preprocess_text Stub.env [32%N; 9%N; 13%N; 10%N; 160%N] = [].
Proof.
  split; [reflexivity|].
  apply (preprocess_text_blank Stub.env [32%N; 9%N; 13%N; 10%N; 160%N]). reflexivity.
Defined.

(** ** Text acquisition *)

Lemma flat_map_nil {A B : Type} (f : A -> list B) (l : list A) :
  flat_map f l = [] <-> Forall (fun x => f x = []) l.
Proof.
  induction l as [|x l IH]; simpl; [split; [constructor | reflexivity]|].
  split.
  - intros H. apply app_eq_nil in H. destruct H as [Hx Hl].
    constructor; [exact Hx | apply IH, Hl].
  - intros H. inversion H as [|? ? Hx Hl]; subst.
    rewrite Hx. apply IH, Hl.
Qed.

Lemma page_lines_nil (page : option pystr) :
  page_lines page = [] <-> page_has_text page = false.
Proof. destruct page as [[|c t]|]; simpl; split; congruence. Qed.

Lemma pdf_fold (pages : list (option pystr)) (init : pystr) :
  fold_left (fun text page =>
               match page with
               | Some (c :: page_text) => text ++ (c :: page_text) ++ [10%N]
               | _ => text
               end) pages init
  = init ++ flat_map page_lines pages.
Proof.
  revert init. induction pages as [|page pages IH]; intros init; simpl.
  - rewrite app_nil_r. reflexivity.
  - rewrite IH. destruct page as [[|c t]|]; cbn [page_lines app];
      try reflexivity.
    rewrite <- app_assoc. reflexivity.
Qed.

Lemma extract_from_pdf_pages (E : Env) (path : pystr) (pages : list (option pystr)) :
  pdf_pages E path = Some pages ->
  extract_from_pdf E path = flat_map page_lines pages.
Proof.
  intros H. unfold extract_from_pdf. rewrite H. apply (pdf_fold pages []).
Qed.

Lemma page_lines_end (pages : list (option pystr)) :
  flat_map page_lines pages <> [] ->
  exists body, flat_map page_lines pages = body ++ [10%N].
Proof.
  induction pages as [|page pages IH]; simpl; [congruence|].
  intros Hne.
  destruct (flat_map page_lines pages) as [|x rest] eqn:Hrest.
  - rewrite app_nil_r in *. destruct page as [[|c t]|]; cbn [page_lines] in *;
      try congruence.
    exists (c :: t). reflexivity.
  - destruct IH as [body Hbody]; [discriminate|].
    exists (page_lines page ++ body). rewrite Hbody, app_assoc. reflexivity.
Qed.

Lemma extract_from_pdf_nonempty (E : Env) (path : pystr) :
  extract_from_pdf E path <> [] <->
  exists pages, pdf_pages E path = Some pages /\ existsb page_has_text pages = true.
Proof.
  destruct (pdf_pages E path) as [pages|] eqn:Hp.
  - rewrite (extract_from_pdf_pages E path pages Hp). split.
    + intros Hne. exists pages. split; [reflexivity|].
      destruct (existsb page_has_text pages) eqn:Hex; [reflexivity|].
      exfalso. apply Hne. apply flat_map_nil. apply Forall_forall. intros page Hin.
      apply page_lines_nil. destruct (page_has_text page) eqn:Hpage; [|reflexivity].
      assert (existsb page_has_text pages = true)
        by (apply existsb_exists; exists page; split; assumption).
      congruence.
    + intros (pages' & Heq & Hex) Hnil. injection Heq as <-.
      apply existsb_exists in Hex. destruct Hex as (page & Hin & Hpage).
      apply flat_map_nil in Hnil. rewrite Forall_forall in Hnil.
      apply Hnil, page_lines_nil in Hin. congruence.
  - unfold extract_from_pdf. rewrite Hp. split; [congruence|].
    intros (pages & Heq & _). discriminate.
Qed.

(** X5.  [extract_from_pdf] returns the empty string when the file cannot
    be read; otherwise the texts of the pages, in page order, each followed
    by a newline, where a page without text adds nothing.  So the result is
    empty exactly when the file cannot be read or no page has text, and a
    result that is not empty ends in a newline. *)
Theorem extract_from_pdf_spec (E : Env) (path : pystr) :
  (pdf_pages E path = None -> extract_from_pdf E path = []) /\
  (forall pages, pdf_pages E path = Some pages ->
     extract_from_pdf E path = flat_map page_lines pages) /\
  (extract_from_pdf E path <> [] <->
   exists pages, pdf_pages E path = Some pages /\
                 existsb page_has_text pages = true) /\
  (extract_from_pdf E path <> [] ->
   exists body, extract_from_pdf E path = body ++ [10%N]).
Proof.
  split; [|split; [|split]].
  - intros H. unfold extract_from_pdf. rewrite H. reflexivity.
  - apply extract_from_pdf_pages.
  - apply extract_from_pdf_nonempty.
  - destruct (pdf_pages E path) as [pages|] eqn:Hp.
    + rewrite (extract_from_pdf_pages E path pages Hp). apply page_lines_end.
    + unfold extract_from_pdf. rewrite Hp. congruence.
Qed.

(** ** Inputs that name a file *)

Lemma process_document_raw_text (E : Env) (self : State) (input_str : pystr) :
  raw_text (fst (process_document E self input_str)) = acquire E input_str.
Proof.
  destruct (acquire E input_str) as [|c raw] eqn:Hraw.
  - rewrite (process_document_without_text E self input_str Hraw). reflexivity.
  - rewrite <- Hraw. apply process_document_with_text. rewrite Hraw. discriminate.
Qed.

Lemma process_document_succeeds_iff (E : Env) (self : State) (input_str : pystr) :
  snd (process_document E self input_str) = true <-> acquire E input_str <> [].
Proof.
  split.
  - intros Hok Hraw.
    rewrite (process_document_without_text E self input_str Hraw) in Hok.
    discriminate.
  - intros Hne. apply process_document_with_text, Hne.
Qed.

(** X6.  For an input that ends in .pdf (whatever the letter case, after
    trimming) [process_document] takes the input as the path of a PDF: the
    raw text of the session is the text extracted from that file, and the
    call succeeds exactly when the file can be read and at least one of
    its pages has text.  The words of the input itself are never
    processed. *)
Theorem process_document_pdf_path (E : Env) (self : State) (input_str : pystr) :
  endswith (strip (lower E input_str)) (lit ".pdf") = true ->
  raw_text (fst (process_document E self input_str)) = extract_from_pdf E input_str /\
  (snd (process_document E self input_str) = true <->
   exists pages, pdf_pages E input_str = Some pages /\
                 existsb page_has_text pages = true).
Proof.
  intros Hpdf.
  assert (Hacq : acquire E input_str = extract_from_pdf E input_str)
    by (unfold acquire; rewrite Hpdf; reflexivity).
  split.
  - rewrite process_document_raw_text. exact Hacq.
  - rewrite process_document_succeeds_iff, Hacq. apply extract_from_pdf_nonempty.
Qed.

Lemma process_document_pdf_path_witness :
  endswith (strip (lower StubFiles.env (lit "Notes.PDF "))) (lit ".pdf") = true /\
  raw_text (fst (process_document StubFiles.env init_state (lit "Notes.PDF ")))
  = lit "A cache is a fast storage layer." ++ [10%N]
    ++ lit "Caches are used because they reduce latency." ++ [10%N] /\
  snd (process_document StubFiles.env init_state (lit "Notes.PDF ")) = true.
Proof.
  split; [reflexivity|].
  destruct (process_document_pdf_path StubFiles.env init_state (lit "Notes.PDF ") eq_refl)
    as [Hraw Hok].
  split; [rewrite Hraw; reflexivity|].
  apply Hok. eexists. split; reflexivity.
Defined.

(** X7.  For an input that ends in .txt and not in .pdf
    [process_document] takes the input as the path of a text file: the
    raw text is the content of the file, and the call succeeds exactly when
    the file can be read and is not empty. *)
Theorem process_document_txt_path (E : Env) (self : State) (input_str : pystr) :
  endswith (strip (lower E input_str)) (lit ".pdf") = false ->
  endswith (strip (lower E input_str)) (lit ".txt") = true ->
  raw_text (fst (process_document E self input_str)) = extract_from_txt E input_str /\
  (forall text, read_file E input_str = Some text ->
     raw_text (fst (process_document E self input_str)) = text) /\
  (snd (process_document E self input_str) = true <->
   exists c text, read_file E input_str = Some (c :: text)).
Proof.
  intros Hpdf Htxt.
  assert (Hacq : acquire E input_str = extract_from_txt E input_str)
    by (unfold acquire; rewrite Hpdf, Htxt; reflexivity).
  split; [|split].
  - rewrite process_document_raw_text. exact Hacq.
  - intros text Hread. rewrite process_document_raw_text, Hacq.
    unfold extract_from_txt. rewrite Hread. reflexivity.
  - rewrite process_document_succeeds_iff, Hacq. unfold extract_from_txt.
    destruct (read_file E input_str) as [[|c text]|]; split;
      try congruence; try (intros (c' & t' & H); discriminate).
    intros _. exists c, text. reflexivity.
Qed.

Lemma process_document_txt_path_witness :
  endswith (strip (lower StubFiles.env (lit "notes.txt"))) (lit ".pdf") = false /\
  endswith (strip (lower StubFiles.env (lit "notes.txt"))) (lit ".txt") = true /\
  raw_text (fst (process_document StubFiles.env init_state (lit "notes.txt")))
  = lit "First, check the cache; then, fall back to disk." /\
  snd (process_document StubFiles.env init_state (lit "notes.txt")) = true.
Proof.
  split; [reflexivity|]. split; [reflexivity|].
  destruct (process_document_txt_path StubFiles.env init_state (lit "notes.txt")
              eq_refl eq_refl) as (_ & Hraw & Hok).
  split; [apply Hraw; reflexivity|].
  apply Hok. eexists. eexists. reflexivity.
Defined.

(** ** How a file name is recognised *)

Lemma is_space_to_lower (c : N) : is_space c = true -> to_lower_ascii c = c.
Proof.
  intros Hsp. unfold to_lower_ascii. destruct (ascii_upper c) eqn:Hu; [|reflexivity].
  exfalso. unfold ascii_upper, in_range in Hu.
  apply andb_true_iff in Hu. destruct Hu as [Hlo Hhi].
  apply N.leb_le in Hlo, Hhi.
  unfold is_space, in_range in Hsp.
  repeat (apply orb_true_iff in Hsp; destruct Hsp as [Hsp|Hsp]);
    try (apply andb_true_iff in Hsp; destruct Hsp as [H1 H2];
         apply N.leb_le in H1, H2; lia);
    try (apply N.eqb_eq in Hsp; lia).
Qed.

Lemma to_lower_small (c : N) :
  (to_lower_ascii c <? 128)%N = true -> (c <? 128)%N = true.
Proof.
  unfold to_lower_ascii. destruct (ascii_upper c) eqn:Hu; [|auto].
  intros _. unfold ascii_upper, in_range in Hu.
  apply andb_true_iff in Hu. destruct Hu as [_ Hhi].
  apply N.leb_le in Hhi. apply N.ltb_lt. lia.
Qed.

Lemma lower_from_all_ascii (E : Env) (t : pystr) :
  forallb (fun c => (c <? 128)%N) t = true ->
  forall before, lower_from E before t = map to_lower_ascii t.
Proof.
  induction t as [|c t IH]; intros H before; [reflexivity|].
  cbn [forallb] in H. apply andb_true_iff in H. destruct H as [Hc Ht].
  rewrite (lower_from_ascii E before c t Hc), (IH Ht). reflexivity.
Qed.

Lemma lower_from_ascii_tail (E : Env) (p t : pystr) :
  forallb (fun c => (c <? 128)%N) t = true ->
  forall before, exists head,
    lower_from E before (p ++ t) = head ++ map to_lower_ascii t.
Proof.
  intros Ht. induction p as [|c p IH]; intros before.
  - exists []. apply lower_from_all_ascii, Ht.
  - destruct (IH (before ++ [c])) as [head Hhead].
    cbn [app lower_from]. rewrite Hhead. eexists. rewrite app_assoc. reflexivity.
Qed.

Lemma drop_while_app_stop (p : N -> bool) (l : pystr) (c : N) (r : pystr) :
  p c = false -> exists l', drop_while p (l ++ c :: r) = l' ++ c :: r.
Proof.
  intros Hc. induction l as [|x l IH]; cbn [app drop_while].
  - exists []. rewrite Hc. reflexivity.
  - destruct (p x); [exact IH|]. exists (x :: l). reflexivity.
Qed.

Lemma drop_while_app_all (p : N -> bool) (l r : pystr) :
  forallb p l = true -> drop_while p (l ++ r) = drop_while p r.
Proof.
  induction l as [|x l IH]; intros H; [reflexivity|].
  cbn [forallb] in H. apply andb_true_iff in H. destruct H as [Hx Hl].
  cbn [app drop_while]. rewrite Hx. apply IH, Hl.
Qed.

Lemma forallb_rev_true (p : N -> bool) (l : pystr) :
  forallb p l = true -> forallb p (rev l) = true.
Proof.
  rewrite !forallb_forall. intros H c Hc. apply H, in_rev, Hc.
Qed.

(** A suffix that starts and ends with a visible character is still the
    suffix once whitespace behind it is trimmed away. *)
Lemma endswith_strip (head : pystr) (a z : N) (mid ws : pystr) :
  is_space a = false -> is_space z = false -> forallb is_space ws = true ->
  endswith (strip (head ++ a :: mid ++ z :: ws)) (a :: mid ++ [z]) = true.
Proof.
  intros Ha Hz Hws. unfold endswith, strip. rewrite rev_involutive.
  destruct (drop_while_app_stop is_space head a (mid ++ z :: ws) Ha) as [head' Hd].
  rewrite Hd.
  assert (Hrev : rev (head' ++ a :: mid ++ z :: ws)
                 = rev ws ++ z :: rev mid ++ a :: rev head').
  { rewrite rev_app_distr. cbn [rev]. rewrite rev_app_distr. cbn [rev].
    rewrite <- !app_assoc. reflexivity. }
  rewrite Hrev, drop_while_app_all by (apply forallb_rev_true, Hws).
  cbn [drop_while]. rewrite Hz.
  apply prefixb_spec. exists (rev head').
  cbn [rev]. rewrite rev_app_distr. cbn [rev app].
  rewrite <- !app_assoc. reflexivity.
Qed.

Lemma lowered_tail (E : Env) (p ext ws : pystr) (suffix : pystr) :
  forallb ascii_space ws = true ->
  map to_lower_ascii ext = suffix ->
  forallb (fun c => (c <? 128)%N) suffix = true ->
  exists head, lower E (p ++ ext ++ ws) = head ++ suffix ++ ws /\
               forallb is_space ws = true.
Proof.
  intros Hws Hext Hsmall.
  assert (Hsp : forallb is_space ws = true).
  { rewrite forallb_forall in *. intros c Hc. specialize (Hws c Hc).
    unfold ascii_space in Hws. apply andb_true_iff in Hws. apply Hws. }
  assert (Hascii : forallb (fun c => (c <? 128)%N) (ext ++ ws) = true).
  { rewrite forallb_app. apply andb_true_iff. split.
    - subst suffix. rewrite forallb_forall in *. intros c Hc.
      apply to_lower_small, Hsmall, in_map, Hc.
    - rewrite forallb_forall in *. intros c Hc. specialize (Hws c Hc).
      unfold ascii_space in Hws. apply andb_true_iff in Hws. apply Hws. }
  destruct (lower_from_ascii_tail E p (ext ++ ws) Hascii []) as [head Hhead].
  exists head. split; [|exact Hsp].
  unfold lower. rewrite Hhead, map_app, Hext. do 2 f_equal.
  clear - Hsp. induction ws as [|c ws IH]; [reflexivity|].
  cbn [forallb] in Hsp. apply andb_true_iff in Hsp. destruct Hsp as [Hc Hs].
  cbn [map]. rewrite (is_space_to_lower c Hc), (IH Hs). reflexivity.
Qed.

(** X8.  Whether an input names a file is decided on its lowercased,
    trimmed form: an input that ends in .pdf or .txt written in any
    letter case, with any ASCII whitespace behind it, is read as a PDF or
    as a text file, and the path handed to the reader is the input as
    given, trailing whitespace included. *)
Theorem acquire_suffix_any_case (E : Env) (p ext ws : pystr) :
  forallb ascii_space ws = true ->
  (map to_lower_ascii ext = lit ".pdf" ->
   acquire E (p ++ ext ++ ws) = extract_from_pdf E (p ++ ext ++ ws)) /\
  (map to_lower_ascii ext = lit ".txt" ->
   acquire E (p ++ ext ++ ws) = extract_from_txt E (p ++ ext ++ ws)).
Proof.
  intros Hws. split; intros Hext.
  - destruct (lowered_tail E p ext ws (lit ".pdf") Hws Hext eq_refl) as (head & Hlow & Hsp).
    unfold acquire. rewrite Hlow.
    change (lit ".pdf" ++ ws) with (46%N :: [112%N; 100%N] ++ 102%N :: ws).
    change (lit ".pdf") with (46%N :: [112%N; 100%N] ++ [102%N]).
    rewrite (endswith_strip head 46 102 [112%N; 100%N] ws eq_refl eq_refl Hsp).
    reflexivity.
  - destruct (lowered_tail E p ext ws (lit ".txt") Hws Hext eq_refl) as (head & Hlow & Hsp).
    unfold acquire. rewrite Hlow.
    assert (Htxt : endswith (strip (head ++ lit ".txt" ++ ws)) (lit ".txt") = true).
    { change (lit ".txt" ++ ws) with (46%N :: [116%N; 120%N] ++ 116%N :: ws).
      change (lit ".txt") with (46%N :: [116%N; 120%N] ++ [116%N]).
      exact (endswith_strip head 46 116 [116%N; 120%N] ws eq_refl eq_refl Hsp). }
    rewrite Htxt.
    assert (Hpdf : endswith (strip (head ++ lit ".txt" ++ ws)) (lit ".pdf") = false).
    { unfold endswith in *. apply prefixb_spec in Htxt. destruct Htxt as [post Hpost].
      rewrite Hpost. reflexivity. }
    rewrite Hpdf. reflexivity.
Qed.

Lemma acquire_suffix_any_case_witness :
  forallb ascii_space (lit " ") = true /\
  acquire StubFiles.env (lit "Notes" ++ lit ".PDF" ++ lit " ")
  = extract_from_pdf StubFiles.env (lit "Notes" ++ lit ".PDF" ++ lit " ").
Proof.
  split; [reflexivity|].
  apply (proj1 (acquire_suffix_any_case StubFiles.env (lit "Notes") (lit ".PDF") (lit " ")
                  eq_refl)).
  reflexivity.
Defined.

(** ** How generator *)

Lemma flat_map_length_le {A B : Type} (f : A -> list B) (l : list A) :
  (forall x, length (f x) <= 1) -> length (flat_map f l) <= length l.
Proof.
  intros H. induction l as [|x l IH]; simpl; [lia|].
  rewrite length_app. specialize (H x). lia.
Qed.

Lemma how_for_cases (E : Env) (sentence : pystr) :
  how_for E sentence
  = match main_verb E sentence with
    | Some verb => [mkPair (how_question verb) (strip sentence)]
    | None => []
    end.
Proof.
  unfold how_for, main_verb.
  destruct (map fst _) as [|v vs]; reflexivity.
Qed.

Lemma generate_how_questions_flat_map (E : Env) (text : pystr) :
  generate_how_questions E text
  = flat_map (how_for E) (firstn 5 (process_sentences E text)).
Proof.
  unfold generate_how_questions.
  apply (fold_left_extend (how_for E) _ []).
Qed.

Lemma how_for_length (E : Env) (sentence : pystr) : length (how_for E sentence) <= 1.
Proof. rewrite how_for_cases. destruct (main_verb E sentence); simpl; lia. Qed.

(** X9.  The how generator looks at the first five sentences, in document
    order, whose lowercased text contains a process indicator, and at no
    other.  Each of them that has a token tagged as a verb gives one pair,
    "How do you {first verb} in this context?" with the trimmed sentence as
    answer; one without a verb gives nothing and still counts among the
    five.  So there are at most five pairs, and none when the first five
    such sentences have no verb. *)
Theorem generate_how_questions_spec (E : Env) (text : pystr) :
  let looked_at := firstn 5 (process_sentences E text) in
  let out := generate_how_questions E text in
  out = flat_map (fun s => match main_verb E s with
                           | Some verb => [mkPair (how_question verb) (strip s)]
                           | None => []
                           end) looked_at /\
  length out <= 5 /\
  (forall p, In p out <->
     exists s verb, In s looked_at /\ main_verb E s = Some verb /\
                    p = mkPair (how_question verb) (strip s)) /\
  ((forall s, In s looked_at -> main_verb E s = None) -> out = []).
Proof.
  intros looked_at out.
  assert (Hflat : out = flat_map (how_for E) looked_at)
    by apply generate_how_questions_flat_map.
  assert (Hin : forall p, In p out <->
            exists s verb, In s looked_at /\ main_verb E s = Some verb /\
                           p = mkPair (how_question verb) (strip s)).
  { intros p. rewrite Hflat, in_flat_map. split.
    - intros (s & Hs & Hp). rewrite how_for_cases in Hp.
      destruct (main_verb E s) as [verb|] eqn:Hv; [|destruct Hp].
      destruct Hp as [<-|[]]. exists s, verb. repeat split; assumption.
    - intros (s & verb & Hs & Hv & ->). exists s. split; [exact Hs|].
      rewrite how_for_cases, Hv. left. reflexivity. }
  split; [|split; [|split]].
  - rewrite Hflat. apply flat_map_ext. intros s. apply how_for_cases.
  - rewrite Hflat.
    pose proof (flat_map_length_le (how_for E) looked_at (how_for_length E)) as H1.
    pose proof (firstn_le_length 5 (process_sentences E text)) as H2.
    unfold looked_at in *. lia.
  - exact Hin.
  - intros Hnone. destruct out as [|p out'] eqn:Hout; [reflexivity|]. exfalso.
    destruct (proj1 (Hin p) (or_introl eq_refl)) as (s & verb & Hs & Hv & _).
    rewrite (Hnone s Hs) in Hv. discriminate.
Qed.

(** ** Deduplicator: algebra *)

Section DeduplicatorAlgebra.

Variable E : Env.

Lemma dedup_loop_distinct (faqs : list FAQPair) :
  forall seen,
    NoDup (map (question_key E) faqs) ->
    (forall p, In p faqs -> ~ In (question_key E p) seen) ->
    dedup_loop E [] seen faqs = faqs.
Proof.
  induction faqs as [|p faqs IH]; intros seen Hnd Hseen; [reflexivity|].
  cbn [dedup_loop map] in *. inversion Hnd as [|? ? Hp Hnd']; subst.
  destruct (in_set (question_key E p) seen) eqn:Hin.
  - apply in_set_In in Hin. exfalso. exact (Hseen p (or_introl eq_refl) Hin).
  - rewrite dedup_loop_acc. cbn [app]. f_equal. apply IH; [exact Hnd'|].
    intros q Hq [Heq|Hin'].
    + apply Hp. rewrite Heq. apply in_map, Hq.
    + exact (Hseen q (or_intror Hq) Hin').
Qed.

Lemma dedup_loop_keeps_keys (faqs : list FAQPair) :
  forall seen p, In p faqs ->
    In (question_key E p) seen \/
    exists q, In q (dedup_loop E [] seen faqs) /\ question_key E q = question_key E p.
Proof.
  induction faqs as [|x faqs IH]; intros seen p Hp; [destruct Hp|].
  cbn [dedup_loop]. destruct (in_set (question_key E x) seen) eqn:Hin.
  - destruct Hp as [<-|Hp]; [left; apply in_set_In, Hin | apply IH, Hp].
  - rewrite dedup_loop_acc. cbn [app]. destruct Hp as [<-|Hp].
    + right. exists x. split; [left|]; reflexivity.
    + destruct (IH (question_key E x :: seen) p Hp) as [[Heq|Hs]|(q & Hq & Hkey)].
      * right. exists x. split; [left; reflexivity | exact Heq].
      * left. exact Hs.
      * right. exists q. split; [right; exact Hq | exact Hkey].
Qed.

Lemma dedup_loop_filter_length (P : FAQPair -> bool) (faqs : list FAQPair) :
  forall seen,
    length (filter P (dedup_loop E [] seen faqs)) <= length (filter P faqs).
Proof.
  induction faqs as [|x faqs IH]; intros seen; [simpl; lia|].
  cbn [dedup_loop filter]. destruct (in_set (question_key E x) seen).
  - specialize (IH seen). destruct (P x); cbn [length]; lia.
  - rewrite dedup_loop_acc. cbn [app filter].
    specialize (IH (question_key E x :: seen)). destruct (P x); cbn [length]; lia.
Qed.

End DeduplicatorAlgebra.

(** X10.  Removing duplicates twice is the same as removing them once, and
    a list whose lowercased, trimmed questions are pairwise different comes
    back unchanged. *)
Theorem remove_duplicate_questions_idempotent (E : Env) (faqs : list FAQPair) :
  remove_duplicate_questions E (remove_duplicate_questions E faqs)
  = remove_duplicate_questions E faqs /\
  (NoDup (map (question_key E) faqs) -> remove_duplicate_questions E faqs = faqs).
Proof.
  split.
  - apply dedup_loop_distinct; [apply remove_duplicate_questions_NoDup|].
    intros p _ [].
  - intros Hnd. apply dedup_loop_distinct; [exact Hnd|]. intros p _ [].
Qed.

(** X11.  The deduplicator loses no question and invents no pair: every
    pair of its result is a pair of the input, the result is never longer
    than the input, and for every input pair the result holds a pair with
    the same lowercased, trimmed question. *)
Theorem remove_duplicate_questions_keeps_questions (E : Env) (faqs : list FAQPair) :
  (forall p, In p (remove_duplicate_questions E faqs) -> In p faqs) /\
  length (remove_duplicate_questions E faqs) <= length faqs /\
  (forall p, In p faqs ->
     exists q, In q (remove_duplicate_questions E faqs) /\
               question_key E q = question_key E p).
Proof.
  split; [|split].
  - apply remove_duplicate_questions_incl.
  - pose proof (dedup_loop_filter_length E (fun _ => true) faqs []) as H.
    rewrite !filter_true in H. exact H.
  - intros p Hp.
    destruct (dedup_loop_keeps_keys E faqs [] p Hp) as [[]|H]. exact H.
Qed.

(** ** The session after a successful call *)

Lemma process_document_success_state (E : Env) (self : State) (input_str : pystr) :
  snd (process_document E self input_str) = true ->
  raw_text (fst (process_document E self input_str)) = acquire E input_str /\
  sentences (fst (process_document E self input_str))
  = sent_tokenize E (processed_text E input_str) /\
  key_concepts (fst (process_document E self input_str))
  = extract_key_concepts E (processed_text E input_str) 15 /\
  faq_pairs (fst (process_document E self input_str))
  = remove_duplicate_questions E (generated_pairs E input_str).
Proof.
  unfold process_document, generated_pairs, processed_text.
  cbn [set_raw_text raw_text].
  destruct (acquire E input_str); [discriminate|]. intros _. repeat split.
Qed.

Lemma filter_split_length {A : Type} (P : A -> bool) (l : list A) :
  length l = length (filter P l) + length (filter (fun x => negb (P x)) l).
Proof.
  induction l as [|x l IH]; simpl; [reflexivity|].
  destruct (P x); simpl; lia.
Qed.

Lemma filter_none {A : Type} (P : A -> bool) (l : list A) :
  (forall x, In x l -> P x = false) -> filter P l = [].
Proof.
  induction l as [|x l IH]; intros H; simpl; [reflexivity|].
  rewrite (H x (or_introl eq_refl)). apply IH. intros y Hy. apply H. right. exact Hy.
Qed.

Lemma definition_for_length (E : Env) (sents : list pystr) (concept : pystr) :
  length (definition_for E sents concept) <= 1.
Proof.
  destruct (definition_for_cases E sents concept)
    as [[_ ->]|(a & _ & _ & -> & _)]; simpl; lia.
Qed.

Lemma extract_key_concepts_length (E : Env) (text : pystr) (top_n : Z) :
  length (extract_key_concepts E text top_n) <= Z.to_nat top_n.
Proof.
  unfold extract_key_concepts, most_common.
  rewrite length_map. apply firstn_le_length.
Qed.

Lemma generated_pairs_lengths (E : Env) (text : pystr) (concepts : list pystr) :
  length (generate_definition_questions E concepts text) <= length concepts /\
  length (generate_how_questions E text) <= 5 /\
  length (generate_why_questions E text) <= 3 /\
  length (generate_comparison_questions E text concepts) <= 3.
Proof.
  split; [|split; [|split]].
  - rewrite generate_definition_questions_flat_map.
    apply flat_map_length_le. intros c. apply definition_for_length.
  - rewrite generate_how_questions_flat_map.
    pose proof (flat_map_length_le (how_for E) (firstn 5 (process_sentences E text))
                  (how_for_length E)) as H1.
    pose proof (firstn_le_length 5 (process_sentences E text)) as H2. lia.
  - unfold generate_why_questions. apply firstn_le_length.
  - rewrite generate_comparison_questions_map, length_map, comparison_range_length. lia.
Qed.

(** X12.  A successful [process_document] leaves at most 15 key concepts
    and at most 24 FAQ pairs: one definition pair per concept at most, five
    how pairs, one why pair and three comparison pairs. *)
Theorem process_document_sizes (E : Env) (self : State) (input_str : pystr) :
  snd (process_document E self input_str) = true ->
  length (key_concepts (fst (process_document E self input_str))) <= 15 /\
  length (faq_pairs (fst (process_document E self input_str)))
  <= length (key_concepts (fst (process_document E self input_str))) + 5 + 1 + 3 /\
  length (faq_pairs (fst (process_document E self input_str))) <= 24.
Proof.
  intros Hok.
  destruct (process_document_success_state E self input_str Hok)
    as (_ & _ & Hconcepts & Hfaqs).
  rewrite Hconcepts, Hfaqs.
  pose proof (extract_key_concepts_length E (processed_text E input_str) 15) as H15.
  change (Z.to_nat 15) with 15 in H15.
  assert (Hmain : length (remove_duplicate_questions E (generated_pairs E input_str))
                  <= length (extract_key_concepts E (processed_text E input_str) 15)
                     + 5 + 1 + 3).
  { set (is_why := fun p : FAQPair => str_eqb (question p) why_question).
    rewrite (filter_split_length is_why
               (remove_duplicate_questions E (generated_pairs E input_str))).
    pose proof (count_question_NoDup E why_question _
                  (remove_duplicate_questions_NoDup E (generated_pairs E input_str)))
      as Hwhy.
    unfold count_question in Hwhy. fold is_why in Hwhy.
    pose proof (dedup_loop_filter_length E (fun x => negb (is_why x))
                  (generated_pairs E input_str) []) as Hrest.
    fold (remove_duplicate_questions E (generated_pairs E input_str)) in Hrest.
    unfold generated_pairs in Hrest at 2. cbv zeta in Hrest.
    rewrite !filter_app, !length_app in Hrest.
    destruct (generated_pairs_lengths E (processed_text E input_str)
                (extract_key_concepts E (processed_text E input_str) 15))
      as (Hd & Hh & _ & Hc).
    rewrite (filter_none (fun x => negb (is_why x))
               (generate_why_questions E (processed_text E input_str))) in Hrest.
    - pose proof (filter_length_le (fun x => negb (is_why x))
                    (generate_definition_questions E
                       (extract_key_concepts E (processed_text E input_str) 15)
                       (processed_text E input_str))).
      pose proof (filter_length_le (fun x => negb (is_why x))
                    (generate_how_questions E (processed_text E input_str))).
      pose proof (filter_length_le (fun x => negb (is_why x))
                    (generate_comparison_questions E (processed_text E input_str)
                       (extract_key_concepts E (processed_text E input_str) 15))).
      cbn [length] in Hrest. lia.
    - intros p Hp. apply generate_why_questions_In in Hp.
      unfold is_why. rewrite Hp, str_eqb_refl. reflexivity. }
  split; [exact H15|]. split; [exact Hmain | lia].
Qed.

Lemma process_document_sizes_witness :
  snd (process_document Stub.env init_state Stub.cache_text) = true /\
  length (key_concepts (fst (process_document Stub.env init_state Stub.cache_text))) = 12 /\
  length (faq_pairs (fst (process_document Stub.env init_state Stub.cache_text))) = 17 /\
  length (faq_pairs (fst (process_document Stub.env init_state Stub.cache_text))) <= 24.
Proof.
  split; [reflexivity|]. split; [reflexivity|]. split; [reflexivity|].
  apply (process_document_sizes Stub.env init_state Stub.cache_text). reflexivity.
Defined.

(** ** Where the answers come from *)

Section Provenance.

Variable E : Env.

Lemma definition_pairs_sourced (concepts : list pystr) (text : pystr) (p : FAQPair) :
  In p (generate_definition_questions E concepts text) ->
  sourced (sent_tokenize E text) concepts p.
Proof.
  rewrite generate_definition_questions_flat_map, in_flat_map.
  intros (c & _ & Hp).
  destruct (definition_for_cases E (sent_tokenize E text) c)
    as [[_ Hnil]|(a & l1 & l2 & Hdef & Heq & _)]; rewrite ?Hnil, ?Hdef in Hp.
  - destruct Hp.
  - destruct Hp as [<-|[]]. split; [discriminate|]. left. cbn [answer].
    assert (Ha : In a (map strip (filter (defines E c) (sent_tokenize E text))))
      by (rewrite Heq; apply in_elt).
    apply in_map_iff in Ha. destruct Ha as (sent & Hs & Hin).
    apply filter_In in Hin. exists sent. split; [apply Hin | symmetry; exact Hs].
Qed.

Lemma how_pairs_sourced (concepts : list pystr) (text : pystr) (p : FAQPair) :
  In p (generate_how_questions E text) -> sourced (sent_tokenize E text) concepts p.
Proof.
  rewrite generate_how_questions_flat_map, in_flat_map.
  intros (s & Hs & Hp). rewrite how_for_cases in Hp.
  destruct (main_verb E s); [|destruct Hp]. destruct Hp as [<-|[]].
  split; [discriminate|]. left. exists s. split; [|reflexivity].
  apply firstn_incl in Hs. unfold process_sentences in Hs.
  apply filter_In in Hs. apply Hs.
Qed.

Lemma why_pairs_sourced (concepts : list pystr) (text : pystr) (p : FAQPair) :
  In p (generate_why_questions E text) -> sourced (sent_tokenize E text) concepts p.
Proof.
  unfold generate_why_questions.
  rewrite (fold_left_append_if (gives_reason E)
             (fun sent => mkPair why_question (strip sent))).
  cbn [app]. intros H. apply firstn_incl in H. apply in_map_iff in H.
  destruct H as (sent & <- & Hin). apply filter_In in Hin.
  split; [discriminate|]. left. exists sent. split; [apply Hin | reflexivity].
Qed.

Lemma comparison_pairs_sourced (concepts : list pystr) (text : pystr) (p : FAQPair) :
  In p (generate_comparison_questions E text concepts) ->
  sourced (sent_tokenize E text) concepts p.
Proof.
  rewrite generate_comparison_questions_map, in_map_iff.
  intros (i & <- & Hi). pose proof (comparison_range_in_bounds concepts i Hi) as Hb.
  unfold comparison_at. cbn [question answer]. split; [discriminate|].
  destruct (filter _ (comparison_pool E text)) as [|r rest] eqn:Hf.
  - right. exists (nth i concepts []), (nth (i + 1) concepts []).
    repeat split; try reflexivity; apply nth_In; lia.
  - left. exists r. split; [|reflexivity].
    assert (Hr : In r (r :: rest)) by (left; reflexivity).
    rewrite <- Hf in Hr. apply filter_In in Hr. destruct Hr as [Hr _].
    unfold comparison_pool in Hr. apply filter_In in Hr. apply Hr.
Qed.

End Provenance.

(** X13.  After a successful [process_document] every FAQ pair has a
    question that is not empty and an answer that is either the trimmed
    form of one of the session's sentences or, for a comparison question
    about two of the session's key concepts, the synthesized sentence
    about these two concepts.  No other text is ever given as an answer. *)
Theorem process_document_answers_sourced (E : Env) (self : State) (input_str : pystr) :
  snd (process_document E self input_str) = true ->
  forall p, In p (faq_pairs (fst (process_document E self input_str))) ->
    question p <> [] /\
    ((exists sent,
         In sent (sentences (fst (process_document E self input_str))) /\
         answer p = strip sent) \/
     (exists c1 c2,
         In c1 (key_concepts (fst (process_document E self input_str))) /\
         In c2 (key_concepts (fst (process_document E self input_str))) /\
         question p = comparison_question c1 c2 /\
         answer p = comparison_fallback c1 c2)).
Proof.
  intros Hok p Hp.
  destruct (process_document_success_state E self input_str Hok)
    as (_ & Hsents & Hconcepts & Hfaqs).
  rewrite Hsents, Hconcepts. rewrite Hfaqs in Hp.
  apply remove_duplicate_questions_incl in Hp. unfold generated_pairs in Hp.
  cbv zeta in Hp. repeat (apply in_app_or in Hp; destruct Hp as [Hp|Hp]).
  - exact (definition_pairs_sourced E _ _ p Hp).
  - exact (how_pairs_sourced E _ _ p Hp).
  - exact (why_pairs_sourced E _ _ p Hp).
  - exact (comparison_pairs_sourced E _ _ p Hp).
Qed.

Lemma process_document_answers_sourced_witness :
  snd (process_document Stub.env init_state Stub.cache_text) = true /\
  In (mkPair (lit "How do you check in this context?")
             (lit "First, check the cache; then, fall back to disk."))
     (faq_pairs (fst (process_document Stub.env init_state Stub.cache_text))) /\
  exists sent,
    In sent (sentences (fst (process_document Stub.env init_state Stub.cache_text))) /\
    lit "First, check the cache; then, fall back to disk." = strip sent.
Proof.
  split; [reflexivity|].
  assert (Hin : In (mkPair (lit "How do you check in this context?")
                           (lit "First, check the cache; then, fall back to disk."))
                   (faq_pairs (fst (process_document Stub.env init_state Stub.cache_text)))).
  { vm_compute. do 12 right. left. reflexivity. }
  split; [exact Hin|].
  destruct (process_document_answers_sourced Stub.env init_state Stub.cache_text
              eq_refl _ Hin) as [_ [H|(c1 & c2 & _ & _ & Hq & _)]].
  - exact H.
  - exfalso. apply (f_equal (fun q => hd 0%N q)) in Hq. vm_compute in Hq. discriminate.
Defined.

(** ** Statistics *)

Lemma get_statistics_keys (E : Env) (self : State) :
  raw_text self <> [] ->
  map fst (get_statistics E self) = statistics_keys.
Proof.
  intros H. unfold get_statistics. destruct (raw_text self); [congruence|].
  reflexivity.
Qed.

Lemma get_statistics_error (E : Env) (self : State) :
  get_statistics E self = error_record E <-> raw_text self = [].
Proof.
  split.
  - intros H. destruct (raw_text self) as [|c raw] eqn:Hraw; [reflexivity|].
    assert (Hk : map fst (get_statistics E self) = statistics_keys)
      by (apply get_statistics_keys; rewrite Hraw; discriminate).
    rewrite H in Hk. discriminate.
  - intros H. unfold get_statistics. rewrite H. reflexivity.
Qed.

(** X14.  [get_statistics] tells a failed call from a successful one: after
    [process_document] it returns the single-key error record exactly when
    the call returned failure, and otherwise a record with the seven keys
    total_characters, total_sentences, total_faqs, key_concepts_found,
    key_concepts, reading_level and avg_sentence_length, in this order. *)
Theorem get_statistics_after_call (E : Env) (self : State) (input_str : pystr) :
  (get_statistics E (fst (process_document E self input_str)) = error_record E <->
   snd (process_document E self input_str) = false) /\
  (snd (process_document E self input_str) = true ->
   map fst (get_statistics E (fst (process_document E self input_str)))
   = statistics_keys).
Proof.
  split.
  - rewrite get_statistics_error, process_document_raw_text.
    destruct (acquire E input_str) as [|c raw] eqn:Hraw.
    + rewrite (process_document_without_text E self input_str Hraw).
      split; reflexivity.
    + assert (Hok : snd (process_document E self input_str) = true)
        by (apply (proj2 (process_document_succeeds_iff E self input_str));
            rewrite Hraw; discriminate).
      rewrite Hok. split; discriminate.
  - intros Hok. apply get_statistics_keys. rewrite process_document_raw_text.
    exact (proj1 (process_document_succeeds_iff E self input_str) Hok).
Qed.

Lemma firstn_firstn_le {A : Type} (i j : nat) (l : list A) :
  i <= j -> firstn i (firstn j l) = firstn i l.
Proof.
  intros H. rewrite firstn_firstn. f_equal. lia.
Qed.

Lemma extract_key_concepts_prefix_of (E : Env) (text : pystr) (n m : Z) :
  (n <= m)%Z ->
  extract_key_concepts E text n
  = firstn (Z.to_nat n) (extract_key_concepts E text m).
Proof.
  intros H. unfold extract_key_concepts, most_common.
  rewrite <- firstn_map, <- firstn_map, firstn_firstn_le by lia. reflexivity.
Qed.

(** X15.  The statistics of a successful call, in terms of its input: the
    characters are counted on the raw text as acquired, not on the
    normalised text; the sentence count is that of the normalised text; the
    concepts listed are the ten highest-ranked concepts of the normalised
    text; and the average sentence length is the integer 0 when there is
    no sentence, so that nothing is divided by zero, and the word count of
    the raw text over the sentence count otherwise. *)
Theorem get_statistics_of_input (E : Env) (self : State) (input_str : pystr) :
  snd (process_document E self input_str) = true ->
  let raw := acquire E input_str in
  let processed := preprocess_text E raw in
  let sents := sent_tokenize E processed in
  get_statistics E (fst (process_document E self input_str))
  = [(lit "total_characters", PInt (Z.of_nat (length raw)));
     (lit "total_sentences", PInt (Z.of_nat (length sents)));
     (lit "total_faqs",
      PInt (Z.of_nat (length (faq_pairs (fst (process_document E self input_str))))));
     (lit "key_concepts_found",
      PInt (Z.of_nat (length (extract_key_concepts E processed 15))));
     (lit "key_concepts", PStrList (extract_key_concepts E processed 10));
     (lit "reading_level",
      match flesch_reading_ease E raw with
      | Some x => PFloat x
      | None => PStr (lit "N/A")
      end);
     (lit "avg_sentence_length",
      match sents with
      | [] => PInt 0
      | _ => PFloat (truediv E (Z.of_nat (length (split raw)))
                             (Z.of_nat (length sents)))
      end)].
Proof.
  intros Hok raw processed sents.
  destruct (process_document_success_state E self input_str Hok)
    as (Hraw & Hsents & Hconcepts & _).
  assert (Hne : raw <> [])
    by exact (proj1 (process_document_succeeds_iff E self input_str) Hok).
  unfold get_statistics. rewrite Hraw, Hsents, Hconcepts.
  fold raw. unfold processed_text. fold raw processed sents.
  rewrite (extract_key_concepts_prefix_of E processed 10 15) by lia.
  destruct raw as [|c r] eqn:Heq; [congruence|]. reflexivity.
Qed.

Lemma get_statistics_of_input_witness :
  snd (process_document Stub.env init_state (lit " ")) = true /\
  get_statistics Stub.env (fst (process_document Stub.env init_state (lit " ")))
  = [(lit "total_characters", PInt 1); (lit "total_sentences", PInt 0);
     (lit "total_faqs", PInt 0); (lit "key_concepts_found", PInt 0);
     (lit "key_concepts", PStrList []); (lit "reading_level", PStr (lit "N/A"));
     (lit "avg_sentence_length", PInt 0)].
Proof.
  split; [reflexivity|].
  rewrite (get_statistics_of_input Stub.env init_state (lit " ") eq_refl).
  reflexivity.
Defined.

(** ** Concept extractor: how the cut works *)

(** X16.  Asking [extract_key_concepts] for fewer concepts gives a prefix of
    what it gives for more, and asking for at least as many as there are
    different qualifying words gives every one of them. *)
Theorem extract_key_concepts_cut (E : Env) (text : pystr) (n m : Z) :
  ((n <= m)%Z ->
   extract_key_concepts E text n
   = firstn (Z.to_nat n) (extract_key_concepts E text m)) /\
  ((Z.of_nat (length (Counter (important_words E text))) <= n)%Z ->
   forall w, In w (important_words E text) -> In w (extract_key_concepts E text n)).
Proof.
  split; [apply extract_key_concepts_prefix_of|].
  intros Hn w Hw. unfold extract_key_concepts, most_common.
  rewrite firstn_all2 by (rewrite sorted_desc_length; lia).
  apply ranking_In, Hw.
Qed.

(** ** The console program *)

Lemma combine_seq_In {A : Type} (l : list A) (start i : nat) (x : A) :
  In (i, x) (combine (seq start (length l)) l) <->
  start <= i /\ nth_error l (i - start) = Some x.
Proof.
  revert start. induction l as [|y l IH]; intros start; cbn [length seq combine In].
  - split; [intros [] | intros [_ H]]. destruct (i - start); discriminate.
  - rewrite IH. split.
    + intros [Heq|[Hi Hn]].
      * injection Heq as <- <-. split; [lia|]. rewrite Nat.sub_diag. reflexivity.
      * split; [lia|]. replace (i - start) with (S (i - S start)) by lia. exact Hn.
    + intros [Hi Hn]. destruct (Nat.eq_dec i start) as [->|Hne].
      * left. rewrite Nat.sub_diag in Hn. injection Hn as <-. reflexivity.
      * right. split; [lia|].
        replace (i - start) with (S (i - S start)) in Hn by lia. exact Hn.
Qed.

Lemma enumerate_from_1_In (pairs : list FAQPair) (i : nat) (p : FAQPair) :
  In (i, p) (enumerate_from_1 pairs) <->
  1 <= i /\ nth_error pairs (i - 1) = Some p.
Proof. apply combine_seq_In. Qed.

Lemma enumerate_from_1_length (pairs : list FAQPair) :
  length (enumerate_from_1 pairs) = length pairs.
Proof.
  unfold enumerate_from_1. rewrite length_combine, length_seq. apply Nat.min_id.
Qed.

Lemma printed_on_success (E : Env) (input_str : pystr) :
  acquire E input_str <> [] -> printed_by_process_document E input_str = [].
Proof.
  intros Hne. unfold printed_by_process_document.
  unfold acquire, extract_from_pdf, extract_from_txt in *.
  destruct (endswith (strip (lower E input_str)) (lit ".pdf")).
  - destruct (pdf_pages E input_str); [|congruence].
    cbn [app]. destruct (fold_left _ _ _); [congruence | reflexivity].
  - destruct (endswith (strip (lower E input_str)) (lit ".txt")).
    + destruct (read_file E input_str) as [text|]; [|congruence].
      cbn [app]. destruct text; [congruence | reflexivity].
    + cbn [app]. destruct input_str; [congruence | reflexivity].
Qed.

Lemma faq_lines_length (F : Type) (pairs : list FAQPair) :
  pairs <> [] -> length (faq_lines F pairs) = 3 * length pairs.
Proof.
  intros Hne. unfold faq_lines. destruct pairs as [|p pairs]; [congruence|].
  rewrite <- (enumerate_from_1_length (p :: pairs)).
  induction (enumerate_from_1 (p :: pairs)) as [|ip l IH]; [reflexivity|].
  cbn [flat_map length app]. rewrite IH. lia.
Qed.

Lemma faq_lines_question (F : Type) (pairs : list FAQPair) (i : nat) (q : pystr) :
  In (@QuestionLine F i q) (faq_lines F pairs) <->
  1 <= i /\ exists p, nth_error pairs (i - 1) = Some p /\ question p = q.
Proof.
  unfold faq_lines. destruct pairs as [|x pairs].
  - split.
    + intros [H|[]]. discriminate.
    + intros (_ & p & Hn & _). destruct (i - 1); discriminate.
  - rewrite in_flat_map. split.
    + intros ([j p] & Hin & Hline). cbn [fst snd] in Hline.
      destruct Hline as [Heq|[Heq|[Heq|[]]]]; try discriminate.
      injection Heq as <- <-. apply enumerate_from_1_In in Hin.
      destruct Hin as [Hj Hn]. split; [exact Hj|]. exists p. split; [exact Hn | reflexivity].
    + intros (Hi & p & Hn & <-). exists (i, p). split.
      * apply enumerate_from_1_In. split; assumption.
      * left. reflexivity.
Qed.

(** X17.  The console program trims what was typed before it calls
    [process_document].  Blank input ends in the two lines "[ERROR] No text
    found or could not extract text." and "Processing failed. Please check
    the input.", with no statistics.  When no text can be acquired the
    output ends in the failure notice; when text is acquired no error line
    is printed, the seven statistics follow their heading, and the pairs
    follow theirs, three lines per pair, the questions numbered from 1 in
    the order of the list. *)
Theorem main_output (E : Env) (typed : pystr) :
  let session := fst (process_document E init_state (strip typed)) in
  (forallb is_space typed = true ->
   main E typed
   = main_banner (pyfloat E)
     ++ [Line (lit "[ERROR] No text found or could not extract text.");
         Line (lit "Processing failed. Please check the input.")]) /\
  (acquire E (strip typed) = [] ->
   main E typed
   = main_banner (pyfloat E) ++ printed_by_process_document E (strip typed)
     ++ [Line (lit "Processing failed. Please check the input.")]) /\
  (acquire E (strip typed) <> [] ->
   main E typed
   = main_banner (pyfloat E)
     ++ [Line (10%N :: lit "--- Document Statistics ---")]
     ++ map (fun kv => StatLine (fst kv) (snd kv)) (get_statistics E session)
     ++ [Line (10%N :: lit "--- Generated FAQs ---")]
     ++ faq_lines (pyfloat E) (faq_pairs session) /\
   map fst (get_statistics E session) = statistics_keys /\
   (faq_pairs session <> [] ->
    length (faq_lines (pyfloat E) (faq_pairs session)) = 3 * length (faq_pairs session)) /\
   (forall i q,
      In (QuestionLine i q) (faq_lines (pyfloat E) (faq_pairs session)) <->
      1 <= i /\ exists p, nth_error (faq_pairs session) (i - 1) = Some p /\
                          question p = q)).
Proof.
  intros session.
  assert (Hfail : acquire E (strip typed) = [] ->
            main E typed
            = main_banner (pyfloat E) ++ printed_by_process_document E (strip typed)
              ++ [Line (lit "Processing failed. Please check the input.")]).
  { intros Hraw. unfold main.
    rewrite (process_document_without_text E init_state (strip typed) Hraw).
    reflexivity. }
  split; [|split].
  - intros Hblank. pose proof (strip_blank typed Hblank) as Hs.
    rewrite Hfail by (rewrite Hs; reflexivity). rewrite Hs. reflexivity.
  - exact Hfail.
  - intros Hne.
    assert (Hok : snd (process_document E init_state (strip typed)) = true)
      by exact (proj2 (process_document_succeeds_iff E init_state (strip typed)) Hne).
    split; [|split; [|split]].
    + unfold main. rewrite Hok, (printed_on_success E (strip typed) Hne). reflexivity.
    + apply get_statistics_keys. unfold session.
      rewrite process_document_raw_text. exact Hne.
    + apply faq_lines_length.
    + apply faq_lines_question.
Qed.

(** ** The Streamlit page *)

(** X18.  When "Generate FAQs" is pressed the page shows its warning, and
    calls nothing, exactly when no file was uploaded and the pasted text is
    blank.  With an upload the pasted text is not looked at, and the
    temporary file, if it still exists, is removed whether or not the
    document could be processed.  The statistics the page shows are never
    the error record, and a failed call shows the error notice alone. *)
Theorem generate_clicked_outcomes (E : Env) (uploaded : option pystr) (tmp_exists : bool)
        (text_input : pystr) :
  (forall tmp_path, uploaded = Some tmp_path -> tmp_path <> []) ->
  let page := generate_clicked E uploaded tmp_exists text_input in
  (shown page = [StWarning (lit "Please provide input text or upload a file.")] <->
   uploaded = None /\ strip text_input = []) /\
  (uploaded = None -> forallb is_space text_input = true ->
   page = mkClick [StWarning (lit "Please provide input text or upload a file.")] None) /\
  (forall tmp_path other_text, uploaded = Some tmp_path ->
     generate_clicked E uploaded tmp_exists other_text = page /\
     removed page = (if tmp_exists then Some tmp_path else None)) /\
  ~ In (StJson (error_record E)) (shown page) /\
  (In (StError (lit "Failed to generate FAQs.")) (shown page) ->
   shown page = [StError (lit "Failed to generate FAQs.")]).
Proof.
  intros Htmp page. unfold page, generate_clicked.
  destruct uploaded as [tmp_path|].
  - specialize (Htmp tmp_path eq_refl).
    destruct tmp_path as [|c tmp] eqn:Hpath; [congruence|]. cbn [shown removed].
    destruct (snd (process_document E init_state (c :: tmp))) eqn:Hok; cbn [negb].
    + split; [split; [discriminate | intros [H _]; discriminate]|].
      split; [discriminate|]. split.
      * intros p other Heq. injection Heq as <-. split; reflexivity.
      * split.
        -- intros Hin. apply in_app_or in Hin. destruct Hin as [[H|[]]|Hin];
             [discriminate|].
           apply in_app_or in Hin. destruct Hin as [Hin|[H|[H|[]]]]; try discriminate.
           ++ apply in_flat_map in Hin. destruct Hin as (ip & _ & [H|[H|[H|[]]]]);
                discriminate.
           ++ injection H as H. apply get_statistics_error in H.
              rewrite process_document_raw_text in H.
              apply (proj1 (process_document_succeeds_iff E init_state (c :: tmp)) Hok H).
        -- intros Hin. exfalso. apply in_app_or in Hin.
           destruct Hin as [[H|[]]|Hin]; [discriminate|].
           apply in_app_or in Hin. destruct Hin as [Hin|[H|[H|[]]]]; try discriminate.
           apply in_flat_map in Hin. destruct Hin as (ip & _ & [H|[H|[H|[]]]]);
             discriminate.
    + split; [split; [discriminate | intros [H _]; discriminate]|].
      split; [discriminate|]. split.
      * intros p other Heq. injection Heq as <-. split; reflexivity.
      * split; [intros [H|[]]; discriminate | reflexivity].
  - destruct (strip text_input) as [|c rest] eqn:Hstrip; cbn [shown removed].
    + split; [split; [intros _; split; reflexivity | reflexivity]|].
      split; [reflexivity|]. split; [intros p other H; discriminate|].
      split; [intros [H|[]]; discriminate | intros [H|[]]; discriminate].
    + destruct (snd (process_document E init_state (c :: rest))) eqn:Hok; cbn [negb].
      * split; [split; [discriminate | intros [_ H]; discriminate]|].
        split; [intros _ Hblank; rewrite (strip_blank _ Hblank) in Hstrip; discriminate|].
        split; [intros p other H; discriminate|]. split.
        -- intros Hin. apply in_app_or in Hin. destruct Hin as [[H|[]]|Hin];
             [discriminate|].
           apply in_app_or in Hin. destruct Hin as [Hin|[H|[H|[]]]]; try discriminate.
           ++ apply in_flat_map in Hin. destruct Hin as (ip & _ & [H|[H|[H|[]]]]);
                discriminate.
           ++ injection H as H. apply get_statistics_error in H.
              rewrite process_document_raw_text in H.
              apply (proj1 (process_document_succeeds_iff E init_state (c :: rest)) Hok H).
        -- intros Hin. exfalso. apply in_app_or in Hin.
           destruct Hin as [[H|[]]|Hin]; [discriminate|].
           apply in_app_or in Hin. destruct Hin as [Hin|[H|[H|[]]]]; try discriminate.
           apply in_flat_map in Hin. destruct Hin as (ip & _ & [H|[H|[H|[]]]]);
             discriminate.
      * split; [split; [discriminate | intros [_ H]; discriminate]|].
        split; [intros _ Hblank; rewrite (strip_blank _ Hblank) in Hstrip; discriminate|].
        split; [intros p other H; discriminate|].
        split; [intros [H|[]]; discriminate | reflexivity].
Qed.

Lemma generate_clicked_outcomes_witness :
  (forall tmp_path, Some (lit "notes.txt") = Some tmp_path -> tmp_path <> []) /\
  removed (generate_clicked StubFiles.env (Some (lit "notes.txt")) true (lit "ignored"))
  = Some (lit "notes.txt") /\
  generate_clicked StubFiles.env (Some (lit "notes.txt")) true (lit "ignored")
  = generate_clicked StubFiles.env (Some (lit "notes.txt")) true [].
Proof.
  assert (H : forall tmp_path, Some (lit "notes.txt") = Some tmp_path -> tmp_path <> [])
    by (intros tmp_path Heq; injection Heq as <-; discriminate).
  split; [exact H|].
  destruct (generate_clicked_outcomes StubFiles.env (Some (lit "notes.txt")) true []
              H) as (_ & _ & Hup & _).
  destruct (Hup (lit "notes.txt") (lit "ignored") eq_refl) as [Hsame Hrem].
  split; [rewrite Hsame; exact Hrem | exact Hsame].
Defined.

(** ** What the result depends on *)

Lemma process_document_by_raw_text (E : Env) (self self' : State) (a b : pystr) :
  acquire E a = acquire E b ->
  process_document E self a = process_document E self' b.
Proof.
  intros H. unfold process_document. cbn [set_raw_text raw_text].
  rewrite H. reflexivity.
Qed.

(** X19.  Giving the path of a readable text file and pasting the content
    of that file come to the same: the two calls end in the same session
    state and result, provided the content does not itself end in .pdf or
    .txt (which would make it a path). *)
Theorem process_document_file_or_paste (E : Env) (self self' : State)
        (path text : pystr) :
  endswith (strip (lower E path)) (lit ".pdf") = false ->
  endswith (strip (lower E path)) (lit ".txt") = true ->
  read_file E path = Some text ->
  endswith (strip (lower E text)) (lit ".pdf") = false ->
  endswith (strip (lower E text)) (lit ".txt") = false ->
  process_document E self path = process_document E self' text.
Proof.
  intros Hpdf Htxt Hread Hpdf' Htxt'. apply process_document_by_raw_text.
  rewrite (acquire_pasted E text Hpdf' Htxt').
  unfold acquire, extract_from_txt. rewrite Hpdf, Htxt, Hread. reflexivity.
Qed.

Lemma process_document_file_or_paste_witness :
  read_file StubFiles.env (lit "notes.txt")
  = Some (lit "First, check the cache; then, fall back to disk.") /\
  process_document StubFiles.env init_state (lit "notes.txt")
  = process_document StubFiles.env init_state
      (lit "First, check the cache; then, fall back to disk.").
Proof.
  split; [reflexivity|].
  apply (process_document_file_or_paste StubFiles.env init_state init_state
           (lit "notes.txt") (lit "First, check the cache; then, fall back to disk."));
    reflexivity.
Defined.

(** X20.  The sentences, key concepts and FAQ pairs of a successful call
    depend on the raw text only through its normalised form: two inputs
    whose raw texts normalise alike, such as a text with CRLF line ends and
    the same text with LF line ends, give the same sentences, concepts and
    pairs, though their character counts may differ. *)
Theorem process_document_by_normal_form (E : Env) (self self' : State) (a b : pystr) :
  preprocess_text E (acquire E a) = preprocess_text E (acquire E b) ->
  snd (process_document E self a) = true ->
  snd (process_document E self' b) = true ->
  sentences (fst (process_document E self a))
  = sentences (fst (process_document E self' b)) /\
  key_concepts (fst (process_document E self a))
  = key_concepts (fst (process_document E self' b)) /\
  faq_pairs (fst (process_document E self a))
  = faq_pairs (fst (process_document E self' b)).
Proof.
  intros Hnorm Ha Hb.
  destruct (process_document_success_state E self a Ha) as (_ & Hs & Hc & Hf).
  destruct (process_document_success_state E self' b Hb) as (_ & Hs' & Hc' & Hf').
  rewrite Hs, Hc, Hf, Hs', Hc', Hf'. unfold generated_pairs, processed_text.
  rewrite Hnorm. repeat split.
Qed.

Lemma process_document_by_normal_form_witness :
  preprocess_text Stub.env
    (acquire Stub.env (lit "Caches help because disks are slow." ++ [13%N; 10%N]
                       ++ lit "Disks are slow since they spin."))
  = preprocess_text Stub.env
      (acquire Stub.env (lit "Caches help because disks are slow." ++ [10%N]
                         ++ lit "Disks are slow since they spin.")) /\
  faq_pairs (fst (process_document Stub.env init_state
                    (lit "Caches help because disks are slow." ++ [13%N; 10%N]
                     ++ lit "Disks are slow since they spin.")))
  = faq_pairs (fst (process_document Stub.env init_state
                      (lit "Caches help because disks are slow." ++ [10%N]
                       ++ lit "Disks are slow since they spin."))) /\
  length (raw_text (fst (process_document Stub.env init_state
                           (lit "Caches help because disks are slow." ++ [13%N; 10%N]
                            ++ lit "Disks are slow since they spin."))))
  = S (length (raw_text (fst (process_document Stub.env init_state
                                (lit "Caches help because disks are slow." ++ [10%N]
                                 ++ lit "Disks are slow since they spin."))))).
Proof.
  split; [reflexivity|]. split; [|reflexivity].
  apply (process_document_by_normal_form Stub.env init_state init_state
           (lit "Caches help because disks are slow." ++ [13%N; 10%N]
            ++ lit "Disks are slow since they spin.")
           (lit "Caches help because disks are slow." ++ [10%N]
            ++ lit "Disks are slow since they spin."));
    reflexivity.
Defined.
